(** * The admission-and-release engine of the virtual waiting room

    A shallow embedding of
      - app/models/*.py            (the rows of the store),
      - app/api/queue_users.py     (join, status lookup, cancellation),
      - app/workers/queue_worker.py (release scheduler, callback dispatcher,
                                     expiration sweeper),
      - app/middleware/rate_limit.py (sliding-window rate limiter),
    followed by the properties of the design document that were checked
    against it.

    Conventions of the embedding:
      - UUID columns are integers ([Z]); tokens, API keys, visitor ids and
        URLs are strings; [datetime] values and [time.time()] are integers
        (seconds on one clock).
      - A table is the list of its rows, in the order in which the store
        scans them.  A loaded ORM object is written back by primary key at
        [commit] ([UPDATE ... WHERE id = ?]).
      - A handler or a worker method is a function from the state it can
        touch to an outcome (a value or a raised exception) and the new
        state; what was written before an exception is raised stays
        written. *)

From stdpp Require Import gmap strings list pretty.
From Stdlib Require Import ZArith Lia Sorted Permutation.

Local Open Scope Z_scope.

(* ===================================================================== *)
(** ** Outcomes: a value, or a raised exception *)
(* ===================================================================== *)

Inductive Outcome (E A : Type) : Type :=
| Return (a : A)
| Raise (e : E).
Arguments Return {E A} a.
Arguments Raise {E A} e.

(** A computation over a state [S] that may raise an [E]. *)
Definition M (S E A : Type) : Type := S -> Outcome E A * S.

Definition ret {S E A} (a : A) : M S E A := fun s => (Return a, s).
Definition raise {S E A} (e : E) : M S E A := fun s => (Raise e, s).
Definition bind {S E A B} (c : M S E A) (k : A -> M S E B) : M S E B :=
  fun s => match c s with
           | (Return a, s') => k a s'
           | (Raise e, s') => (Raise e, s')
           end.
(** [try: c except Exception: h] *)
Definition try_except {S E A} (c : M S E A) (h : E -> M S E A) : M S E A :=
  fun s => match c s with
           | (Return a, s') => (Return a, s')
           | (Raise e, s') => h e s'
           end.
(** [try: c finally: f] where [f] itself does not raise *)
Definition try_finally {S E A} (c : M S E A) (f : S -> S) : M S E A :=
  fun s => match c s with
           | (o, s') => (o, f s')
           end.
Definition modify {S E} (f : S -> S) : M S E unit := fun s => (Return tt, f s).
Definition gets {S E A} (f : S -> A) : M S E A := fun s => (Return (f s), s).

Notation "'let*' x ':=' c 'in' k" := (bind c (fun x => k))
  (at level 10, x name, c at level 100, k at level 200).
Notation "c ';;' k" := (bind c (fun _ => k))
  (at level 100, k at level 200, right associativity).

(** [for x in xs: body(x)] *)
Fixpoint for_each {S E A} (body : A -> M S E unit) (xs : list A) : M S E unit :=
  match xs with
  | [] => ret tt
  | x :: xs' => body x ;; for_each body xs'
  end.

(* ===================================================================== *)
(** ** app/models: the rows *)
(* ===================================================================== *)

(** [QueueUserStatus] of app/models/queue_user.py *)
Inductive QueueUserStatus : Type := waiting | ready | expired | rejected.

Definition QueueUserStatus_eqb (a b : QueueUserStatus) : bool :=
  match a, b with
  | waiting, waiting | ready, ready | expired, expired | rejected, rejected => true
  | _, _ => false
  end.

(** The value of the enum, as sent in the callback body. *)
Definition QueueUserStatus_value (s : QueueUserStatus) : string :=
  match s with
  | waiting => "waiting" | ready => "ready"
  | expired => "expired" | rejected => "rejected"
  end.

(** The terminal states of the design document. *)
Definition terminal (s : QueueUserStatus) : bool := negb (QueueUserStatus_eqb s waiting).

(** The columns of [Base] are repeated in each row type; [updated_at],
    [name] and [domain] are read by none of the embedded functions and are
    left out. *)
Module Application.
Record t : Type := mk {
  id : Z;
  callback_url : string;
  api_key : string;
  is_active : bool;
  is_deleted : bool
}.
End Application.

Module Queue.
Record t : Type := mk {
  id : Z;
  application_id : Z;
  max_users_per_minute : Z;
  priority : Z;
  is_active : bool;
  is_deleted : bool
}.
End Queue.

Module QueueUser.
Record t : Type := mk {
  id : Z;
  queue_id : Z;
  visitor_id : string;
  status : QueueUserStatus;
  token : string;
  redirect_url : option string;
  wait_time : option Z;
  expires_at : option Z;
  created_at : Z;
  is_active : bool;
  is_deleted : bool
}.

Definition set_status (s : QueueUserStatus) (u : t) : t :=
  mk (id u) (queue_id u) (visitor_id u) s (token u) (redirect_url u)
     (wait_time u) (expires_at u) (created_at u) (is_active u) (is_deleted u).
Definition set_wait_time (w : option Z) (u : t) : t :=
  mk (id u) (queue_id u) (visitor_id u) (status u) (token u) (redirect_url u)
     w (expires_at u) (created_at u) (is_active u) (is_deleted u).
Definition set_is_deleted (d : bool) (u : t) : t :=
  mk (id u) (queue_id u) (visitor_id u) (status u) (token u) (redirect_url u)
     (wait_time u) (expires_at u) (created_at u) (is_active u) d.
End QueueUser.

(** A row of [logs]; the free-text [details] column repeats the three
    references and is left out, as are the defaulted [id] and dates. *)
Module Log.
Record t : Type := mk {
  event_type : string;
  message : string;
  application_id : option Z;
  queue_id : option Z;
  queue_user_id : option Z
}.
End Log.

(** The store behind a [Session]. *)
Record DB : Type := mkDB {
  applications : list Application.t;
  queues : list Queue.t;
  queue_users : list QueueUser.t;
  logs : list Log.t
}.

Definition set_queue_users (us : list QueueUser.t) (db : DB) : DB :=
  mkDB (applications db) (queues db) us (logs db).
Definition set_logs (ls : list Log.t) (db : DB) : DB :=
  mkDB (applications db) (queues db) (queue_users db) ls.

(** [query.first()]: the first row the scan meets, or [None]. *)
Definition first {A} (p : A -> bool) (rows : list A) : option A := List.find p rows.

(** Writing a loaded object back: every row with that primary key is
    replaced ([id] is declared [primary_key=True, unique=True]). *)
Definition update_by_id (uid : Z) (f : QueueUser.t -> QueueUser.t)
    (rows : list QueueUser.t) : list QueueUser.t :=
  List.map (fun r => if QueueUser.id r =? uid then f r else r) rows.

(** The primary-key constraint on [queue_users]. *)
Definition unique_ids (db : DB) : Prop :=
  List.NoDup (List.map QueueUser.id (queue_users db)).

(* ===================================================================== *)
(** ** app/api/queue_users.py *)
(* ===================================================================== *)

(** [HTTPException(status_code, detail)]; an [IntegrityError] of the store
    leaves the handler as it is. *)
Inductive ApiError : Type :=
| HTTPException (status_code : Z) (detail : string)
| IntegrityError.

(** [QueueUserJoin] *)
Record QueueUserJoin : Type := mkJoin {
  join_queue_id : Z;
  join_visitor_id : string
}.

(** [QueueUserResponse] *)
Record QueueUserResponse : Type := mkResponse {
  resp_id : Z;
  resp_queue_id : Z;
  resp_visitor_id : string;
  resp_status : QueueUserStatus;
  resp_token : string;
  resp_redirect_url : option string;
  resp_wait_time : option Z;
  resp_expires_at : option Z;
  resp_created_at : Z
}.

(** [response_model=QueueUserResponse] applied to a row. *)
Definition to_response (u : QueueUser.t) : QueueUserResponse :=
  mkResponse (QueueUser.id u) (QueueUser.queue_id u) (QueueUser.visitor_id u)
    (QueueUser.status u) (QueueUser.token u) (QueueUser.redirect_url u)
    (QueueUser.wait_time u) (QueueUser.expires_at u) (QueueUser.created_at u).

(** [db.add(queue_user); db.commit()]: the [unique=True] columns [id] and
    [token] reject a duplicate. *)
Definition add_queue_user (u : QueueUser.t) : M DB ApiError unit :=
  fun db =>
    if existsb (fun r => (QueueUser.id r =? QueueUser.id u)
                         || String.eqb (QueueUser.token r) (QueueUser.token u))
               (queue_users db)
    then (Raise IntegrityError, db)
    else (Return tt, set_queue_users (queue_users db ++ [u]) db).

(** [join_queue].  [api_key] is the [app_api_key] header; [now] is
    [datetime.utcnow()]; [fresh_token] and [fresh_id] are the two values
    drawn with [uuid.uuid4()]. *)
Definition join_queue (queue_user_in : QueueUserJoin) (api_key : option string)
    (mode : string) (now : Z) (fresh_token : string) (fresh_id : Z)
    : M DB ApiError QueueUserResponse :=
  match api_key with
  | None | Some EmptyString => raise (HTTPException 401 "Missing app_api_key")
  | Some key =>
    let* app := gets (fun db =>
        first (fun a => String.eqb (Application.api_key a) key
                        && negb (Application.is_deleted a)) (applications db)) in
    match app with
    | None => raise (HTTPException 401 "Invalid app_api_key")
    | Some app =>
      let* queue := gets (fun db =>
          first (fun q => (Queue.id q =? join_queue_id queue_user_in)
                          && (Queue.application_id q =? Application.id app)
                          && negb (Queue.is_deleted q)) (queues db)) in
      match queue with
      | None => raise (HTTPException 404 "Queue not found")
      | Some queue =>
        if String.eqb mode "simulation" then
          ret (mkResponse fresh_id (Queue.id queue) (join_visitor_id queue_user_in)
                 ready fresh_token None (Some 0) (Some (now + 5 * 60)) now)
        else
          let queue_user :=
            QueueUser.mk fresh_id (Queue.id queue) (join_visitor_id queue_user_in)
              waiting fresh_token None None (Some (now + 10 * 60)) now true false in
          add_queue_user queue_user ;;
          ret (to_response queue_user)
      end
    end
  end.

(** The row a token resolves to: [filter_by(token=token, is_deleted=False).first()] *)
Definition by_token (token : string) (db : DB) : option QueueUser.t :=
  first (fun u => String.eqb (QueueUser.token u) token
                  && negb (QueueUser.is_deleted u)) (queue_users db).

(** [queue_status] *)
Definition queue_status (token : string) : M DB ApiError QueueUserResponse :=
  let* queue_user := gets (by_token token) in
  match queue_user with
  | None => raise (HTTPException 404 "Token not found")
  | Some queue_user => ret (to_response queue_user)
  end.

(** [cancel_queue] *)
Definition cancel_queue (token : string) : M DB ApiError unit :=
  let* queue_user := gets (by_token token) in
  match queue_user with
  | None => raise (HTTPException 404 "Token not found")
  | Some queue_user =>
    modify (fun db =>
      set_queue_users
        (update_by_id (QueueUser.id queue_user)
           (fun r => QueueUser.set_is_deleted true (QueueUser.set_status rejected r))
           (queue_users db)) db)
  end.

(* ===================================================================== *)
(** ** app/workers/queue_worker.py *)
(* ===================================================================== *)

(** The Prometheus metrics of the module.  [QUEUE_SIZE] is labelled by
    queue id; [CALLBACK_DURATION] keeps the observed values. *)
Record Metrics : Type := mkMetrics {
  USERS_RELEASED : Z;
  USERS_EXPIRED : Z;
  CALLBACK_SUCCESS : Z;
  CALLBACK_FAILURE : Z;
  QUEUE_SIZE : gmap Z Z;
  CALLBACK_DURATION : list Z
}.

Definition inc_USERS_RELEASED (m : Metrics) : Metrics :=
  mkMetrics (USERS_RELEASED m + 1) (USERS_EXPIRED m) (CALLBACK_SUCCESS m)
            (CALLBACK_FAILURE m) (QUEUE_SIZE m) (CALLBACK_DURATION m).
Definition inc_USERS_EXPIRED (m : Metrics) : Metrics :=
  mkMetrics (USERS_RELEASED m) (USERS_EXPIRED m + 1) (CALLBACK_SUCCESS m)
            (CALLBACK_FAILURE m) (QUEUE_SIZE m) (CALLBACK_DURATION m).
Definition inc_CALLBACK_SUCCESS (m : Metrics) : Metrics :=
  mkMetrics (USERS_RELEASED m) (USERS_EXPIRED m) (CALLBACK_SUCCESS m + 1)
            (CALLBACK_FAILURE m) (QUEUE_SIZE m) (CALLBACK_DURATION m).
Definition inc_CALLBACK_FAILURE (m : Metrics) : Metrics :=
  mkMetrics (USERS_RELEASED m) (USERS_EXPIRED m) (CALLBACK_SUCCESS m)
            (CALLBACK_FAILURE m + 1) (QUEUE_SIZE m) (CALLBACK_DURATION m).
Definition set_QUEUE_SIZE (queue_id v : Z) (m : Metrics) : Metrics :=
  mkMetrics (USERS_RELEASED m) (USERS_EXPIRED m) (CALLBACK_SUCCESS m)
            (CALLBACK_FAILURE m) (<[queue_id := v]> (QUEUE_SIZE m)) (CALLBACK_DURATION m).
Definition observe_CALLBACK_DURATION (v : Z) (m : Metrics) : Metrics :=
  mkMetrics (USERS_RELEASED m) (USERS_EXPIRED m) (CALLBACK_SUCCESS m)
            (CALLBACK_FAILURE m) (QUEUE_SIZE m) (CALLBACK_DURATION m ++ [v]).

(** The JSON body of the callback. *)
Record CallbackData : Type := mkCallbackData {
  cb_token : string;
  cb_visitor_id : string;
  cb_queue_id : Z;
  cb_status : string;
  cb_wait_time : option Z;
  cb_redirect_url : option string
}.

(** What the worker does to the outside, in the order it does it. *)
Inductive Event : Type :=
| Post (url : string) (data : CallbackData)
| Sleep (seconds : Z).

(** Everything the worker reads and writes.  The clock is advanced by
    [asyncio.sleep]; messages given to [logger] are not kept. *)
Record World : Type := mkWorld {
  db : DB;
  metrics : Metrics;
  clock : Z;
  trace : list Event;
  running : bool
}.

Definition set_db (d : DB) (w : World) : World :=
  mkWorld d (metrics w) (clock w) (trace w) (running w).
Definition set_metrics (m : Metrics) (w : World) : World :=
  mkWorld (db w) m (clock w) (trace w) (running w).
Definition set_running (r : bool) (w : World) : World :=
  mkWorld (db w) (metrics w) (clock w) (trace w) r.
Definition emit (e : Event) (w : World) : World :=
  mkWorld (db w) (metrics w) (clock w) (trace w ++ [e]) (running w).
Definition advance (d : Z) (w : World) : World :=
  mkWorld (db w) (metrics w) (clock w + d) (trace w) (running w).

(** The exceptions the store raises into the worker. *)
Inductive WorkerError : Type :=
| OperationalError   (* the store could not run the query *)
| DataError.         (* the store rejected the query *)

(** The three queries of the worker that load rows. *)
Inductive StoreQuery : Type :=
| LoadQueues
| LoadWaiting (queue_id : Z)
| LoadExpired.

(** [range(n)] *)
Definition range (n : nat) : list Z := List.map Z.of_nat (seq 0 n).

(** [ORDER BY created_at]: an insertion sort that keeps rows of equal
    [created_at] in the order of the scan; the query names no other key. *)
Fixpoint insert_by_created_at (u : QueueUser.t) (sorted : list QueueUser.t)
    : list QueueUser.t :=
  match sorted with
  | [] => [u]
  | v :: rest =>
    if QueueUser.created_at u <=? QueueUser.created_at v
    then u :: v :: rest
    else v :: insert_by_created_at u rest
  end.
Definition order_by_created_at (rows : list QueueUser.t) : list QueueUser.t :=
  fold_right insert_by_created_at [] rows.

(** The predicate [filter_by(queue_id=..., status=waiting, is_deleted=False)] *)
Definition is_waiting_in (queue_id : Z) (u : QueueUser.t) : bool :=
  (QueueUser.queue_id u =? queue_id)
  && QueueUserStatus_eqb (QueueUser.status u) waiting
  && negb (QueueUser.is_deleted u).

(** The predicate of the sweeper's query; a NULL [expires_at] compares to
    nothing. *)
Definition is_expired_at (now : Z) (u : QueueUser.t) : bool :=
  QueueUserStatus_eqb (QueueUser.status u) waiting
  && match QueueUser.expires_at u with
     | Some e => e <? now
     | None => false
     end
  && negb (QueueUser.is_deleted u).

(** The rows of the first query of [process_queue]:
    [filter_by(...).order_by(QueueUser.created_at).limit(max_users_per_minute)] *)
Definition waiting_users_of (queue : Queue.t) (d : DB) : list QueueUser.t :=
  firstn (Z.to_nat (Queue.max_users_per_minute queue))
    (order_by_created_at
       (List.filter (is_waiting_in (Queue.id queue)) (queue_users d))).

(** The rows of the query of [process_queues]:
    [filter_by(is_active=True, is_deleted=False)] *)
Definition active_queues (d : DB) : list Queue.t :=
  List.filter (fun q => Queue.is_active q && negb (Queue.is_deleted q)) (queues d).

(** [callback_data] of [send_callback] *)
Definition callback_data_of (user : QueueUser.t) (queue : Queue.t) : CallbackData :=
  mkCallbackData (QueueUser.token user) (QueueUser.visitor_id user)
    (Queue.id queue) (QueueUserStatus_value (QueueUser.status user))
    (QueueUser.wait_time user) (QueueUser.redirect_url user).

Section Worker.

(** The callback endpoints: whether the [POST] that follows the events in
    the trace gets a 2xx answer (anything else, and any network error,
    makes [client.post]/[raise_for_status] raise). *)
Variable endpoint : list Event -> string -> CallbackData -> bool.

(** The store: whether it raises when asked to run a query. *)
Variable store_fault : StoreQuery -> bool.

Definition W := M World WorkerError.

Definition run_query (q : StoreQuery) : W unit :=
  if store_fault q then raise OperationalError else ret tt.

(** [await asyncio.sleep(seconds)] *)
Definition sleep (seconds : Z) : W unit :=
  modify (fun w => advance seconds (emit (Sleep seconds) w)).

(** [await self.client.post(url, json=data); response.raise_for_status()]:
    [true] when neither raises. *)
Definition client_post (url : string) (data : CallbackData) : W bool :=
  fun w => (Return (endpoint (trace w) url data), emit (Post url data) w).

(** The body of [for attempt in range(retries)] in [send_callback];
    returns the final value of [success]. *)
Fixpoint callback_attempts (url : string) (data : CallbackData) (retries : Z)
    (attempts : list Z) : W bool :=
  match attempts with
  | [] => ret false
  | attempt :: rest =>
    let* ok := client_post url data in
    if ok then
      modify (fun w => set_metrics (inc_CALLBACK_SUCCESS (metrics w)) w) ;;
      ret true
    else
      (if attempt <? retries - 1 then sleep (2 ^ attempt) else ret tt) ;;
      callback_attempts url data retries rest
  end.

(** [QueueWorker.send_callback] *)
Definition send_callback (user : QueueUser.t) (queue : Queue.t) : W unit :=
  let* app := gets (fun w =>
      first (fun a => Application.id a =? Queue.application_id queue)
            (applications (db w))) in
  match app with
  | None => ret tt
  | Some app =>
    let callback_data := callback_data_of user queue in
    let* start_time := gets clock in
    let retries := 3%nat in
    let* success := callback_attempts (Application.callback_url app) callback_data
                      (Z.of_nat retries) (range retries) in
    (if negb success then
       modify (fun w => set_metrics (inc_CALLBACK_FAILURE (metrics w)) w) ;;
       modify (fun w => set_db (set_logs
         (logs (db w) ++
            [Log.mk "callback_failure" "Callback failed after 3 attempts"
               (Some (Application.id app)) (Some (Queue.id queue))
               (Some (QueueUser.id user))]) (db w)) w)
     else ret tt) ;;
    modify (fun w =>
      set_metrics (observe_CALLBACK_DURATION (clock w - start_time) (metrics w)) w)
  end.

(** The two assignments of [release_user], as written back at [commit]. *)
Definition released (now : Z) (created : Z) (r : QueueUser.t) : QueueUser.t :=
  QueueUser.set_wait_time (Some (now - created)) (QueueUser.set_status ready r).

(** [QueueWorker.release_user] *)
Definition release_user (user : QueueUser.t) (queue : Queue.t) : W unit :=
  let* now := gets clock in
  modify (fun w => set_db (set_queue_users
    (update_by_id (QueueUser.id user) (released now (QueueUser.created_at user))
       (queue_users (db w))) (db w)) w) ;;
  send_callback (released now (QueueUser.created_at user) user) queue.

(** The first query of [process_queue]; PostgreSQL, the store the
    deployment is set up for, rejects a negative [LIMIT]. *)
Definition select_waiting (queue : Queue.t) : W (list QueueUser.t) :=
  run_query (LoadWaiting (Queue.id queue)) ;;
  if Queue.max_users_per_minute queue <? 0 then raise DataError
  else gets (fun w => waiting_users_of queue (db w)).

(** The second query of [process_queue]: [.count()] *)
Definition count_waiting (queue_id : Z) (d : DB) : Z :=
  Z.of_nat (length (List.filter (is_waiting_in queue_id) (queue_users d))).

(** [QueueWorker.process_queue] *)
Definition process_queue (queue : Queue.t) : W unit :=
  let* waiting_users := select_waiting queue in
  match waiting_users with
  | [] => ret tt
  | _ :: _ =>
    let* total_waiting := gets (fun w => count_waiting (Queue.id queue) (db w)) in
    modify (fun w => set_metrics
      (set_QUEUE_SIZE (Queue.id queue) total_waiting (metrics w)) w) ;;
    for_each (fun user =>
        release_user user queue ;;
        modify (fun w => set_metrics (inc_USERS_RELEASED (metrics w)) w))
      waiting_users
  end.

(** [db.close()] (nothing of the model changes) *)
Definition close (w : World) : World := w.

(** [QueueWorker.process_queues] *)
Definition process_queues : W unit :=
  try_finally
    (run_query LoadQueues ;;
     let* queues := gets (fun w => active_queues (db w)) in
     for_each process_queue queues)
    close.

(** [QueueWorker.cleanup_expired_tokens] *)
Definition cleanup_expired_tokens : W unit :=
  try_finally
    (run_query LoadExpired ;;
     let* expired_users := gets (fun w =>
         List.filter (is_expired_at (clock w)) (queue_users (db w))) in
     for_each (fun user =>
         modify (fun w => set_db (set_queue_users
           (update_by_id (QueueUser.id user) (QueueUser.set_status expired)
              (queue_users (db w))) (db w)) w) ;;
         modify (fun w => set_metrics (inc_USERS_EXPIRED (metrics w)) w))
       expired_users)
    close.

(** The body of [while self.running] in [QueueWorker.start] *)
Definition start_iteration : W unit :=
  try_except
    (process_queues ;; cleanup_expired_tokens ;; sleep 60)
    (fun _ => sleep 60).

(** [QueueWorker.start], for at most [fuel] turns of the loop *)
Fixpoint start_loop (fuel : nat) : W unit :=
  match fuel with
  | O => ret tt
  | S fuel' =>
    let* r := gets running in
    if r then start_iteration ;; start_loop fuel' else ret tt
  end.
Definition start (fuel : nat) : W unit :=
  modify (set_running true) ;; start_loop fuel.

End Worker.

(* ===================================================================== *)
(** ** app/middleware/rate_limit.py *)
(* ===================================================================== *)

Module RateLimiter.
(** The fields set by [__init__]; [requests] is the [defaultdict(list)]. *)
Record t : Type := mk {
  requests : gmap string (list Z);
  max_requests : Z;
  window_size : Z
}.

(** [RateLimiter()] with [RATE_LIMIT_PER_MINUTE] read as [limit] *)
Definition init (limit : Z) : t := mk ∅ limit 60.

Definition set_requests (r : gmap string (list Z)) (rl : t) : t :=
  mk r (max_requests rl) (window_size rl).

(** [self.requests[client_id]]: a missing key reads as the empty list
    (and the [defaultdict] stores it). *)
Definition client_requests (client_id : string) (rl : t) : list Z :=
  default [] (requests rl !! client_id).

(** [[req_time for req_time in client_requests if now - req_time < self.window_size]] *)
Definition in_window (now : Z) (client_id : string) (rl : t) : list Z :=
  List.filter (fun req_time => now - req_time <? window_size rl)
              (client_requests client_id rl).

(** [RateLimiter.is_allowed], with [now = time.time()] *)
Definition is_allowed (now : Z) (client_id : string) (rl : t) : bool * t :=
  let kept := in_window now client_id rl in
  if Z.of_nat (length kept) <? max_requests rl
  then (true, set_requests (<[client_id := kept ++ [now]]> (requests rl)) rl)
  else (false, set_requests (<[client_id := kept]> (requests rl)) rl).

(** [RateLimiter.get_remaining_requests], with [now = time.time()] *)
Definition get_remaining_requests (now : Z) (client_id : string) (rl : t) : Z * t :=
  let kept := in_window now client_id rl in
  (Z.max 0 (max_requests rl - Z.of_nat (length kept)),
   set_requests (<[client_id := kept]> (requests rl)) rl).

(** A sequence of [is_allowed] calls, each with its time and client;
    returns the answers in order. *)
Fixpoint serve (calls : list (Z * string)) (rl : t) : list bool * t :=
  match calls with
  | [] => ([], rl)
  | (now, client_id) :: rest =>
    let '(answer, rl1) := is_allowed now client_id rl in
    let '(answers, rl2) := serve rest rl1 in
    (answer :: answers, rl2)
  end.

(** The times of the calls of [client_id] that were answered [True]. *)
Fixpoint allowed_times (client_id : string) (calls : list (Z * string))
    (answers : list bool) : list Z :=
  match calls, answers with
  | (now, c) :: calls', answer :: answers' =>
    (if String.eqb c client_id && answer then [now] else [])
    ++ allowed_times client_id calls' answers'
  | _, _ => []
  end.
End RateLimiter.

(* ===================================================================== *)
(** ** Vocabulary of the properties *)
(* ===================================================================== *)

(** The row with a given primary key. *)
Definition by_id (uid : Z) (d : DB) : option QueueUser.t :=
  first (fun r => QueueUser.id r =? uid) (queue_users d).

(** The participants that were waiting in [before] and are ready in
    [after]: those a cycle has released. *)
Definition released_between (before after : DB) : list QueueUser.t :=
  List.filter (fun u =>
      QueueUserStatus_eqb (QueueUser.status u) waiting
      && match by_id (QueueUser.id u) after with
         | Some r => QueueUserStatus_eqb (QueueUser.status r) ready
         | None => false
         end)
    (queue_users before).

(** Those of them that belong to one queue. *)
Definition released_in (queue_id : Z) (before after : DB) : list QueueUser.t :=
  List.filter (fun u => QueueUser.queue_id u =? queue_id)
              (released_between before after).

(** The primary-key constraint on [queues]. *)
Definition unique_queue_ids (d : DB) : Prop :=
  List.NoDup (List.map Queue.id (queues d)).

(** The tokens of the callbacks posted, in the order of the trace. *)
Definition posted_tokens (tr : list Event) : list string :=
  flat_map (fun e => match e with
                     | Post _ data => [cb_token data]
                     | Sleep _ => []
                     end) tr.

(** The delays slept, in the order of the trace. *)
Definition slept (tr : list Event) : list Z :=
  flat_map (fun e => match e with
                     | Post _ _ => []
                     | Sleep s => [s]
                     end) tr.

(** The number of [POST]s in a trace. *)
Definition posts (tr : list Event) : nat := length (posted_tokens tr).

(** Following the design document's words, "set state to X only if current
    state is waiting": the conditional update it asks of the store. *)
Definition conditional_update (uid : Z) (x : QueueUserStatus)
    (rows : list QueueUser.t) : list QueueUser.t :=
  update_by_id uid
    (fun r => if QueueUserStatus_eqb (QueueUser.status r) waiting
              then QueueUser.set_status x r else r)
    rows.

(** The application a credential resolves to. *)
Definition resolves_application (d : DB) (api_key : option string)
    (a : Application.t) : Prop :=
  In a (applications d) /\ api_key = Some (Application.api_key a)
  /\ Application.api_key a <> EmptyString
  /\ Application.is_deleted a = false.

(** The row the first query of [join_queue] returns. *)
Definition application_of (d : DB) (api_key : option string) : option Application.t :=
  match api_key with
  | None | Some EmptyString => None
  | Some key =>
    first (fun a => String.eqb (Application.api_key a) key
                    && negb (Application.is_deleted a)) (applications d)
  end.

(** The queue a queue id resolves to, within an application. *)
Definition resolves_queue (d : DB) (a : Application.t) (queue_id : Z)
    (q : Queue.t) : Prop :=
  In q (queues d) /\ Queue.id q = queue_id
  /\ Queue.application_id q = Application.id a
  /\ Queue.is_deleted q = false.

(** What a dispatch leaves alone: the participants, the configuration,
    the worker's flag and the release metrics; the clock does not go back. *)
Definition dispatch_frame (w w' : World) : Prop :=
  queue_users (db w') = queue_users (db w)
  /\ applications (db w') = applications (db w)
  /\ queues (db w') = queues (db w)
  /\ running w' = running w
  /\ USERS_RELEASED (metrics w') = USERS_RELEASED (metrics w)
  /\ USERS_EXPIRED (metrics w') = USERS_EXPIRED (metrics w)
  /\ QUEUE_SIZE (metrics w') = QUEUE_SIZE (metrics w)
  /\ clock w <= clock w'.

(** The events of [k] failed attempts, each followed by its backoff. *)
Definition backoff_prefix (url : string) (data : CallbackData) (k : nat) : list Event :=
  flat_map (fun attempt => [Post url data; Sleep (2 ^ attempt)]) (range k).

(** How a row may have moved between two states of the table: it keeps its
    key, and either is the same row or satisfies [P]. *)
Definition row_step (P : QueueUser.t -> QueueUser.t -> Prop)
    (r0 r : QueueUser.t) : Prop :=
  QueueUser.id r = QueueUser.id r0 /\ (r = r0 \/ P r0 r).
Definition rows_step (P : QueueUser.t -> QueueUser.t -> Prop)
    (rows0 rows : list QueueUser.t) : Prop :=
  Forall2 (row_step P) rows0 rows.

(** A row released by the scheduler: its key is among [ids], it was
    waiting, and it differs from before in [status] and [wait_time] only. *)
Definition was_released (ids : list Z) (r0 r : QueueUser.t) : Prop :=
  In (QueueUser.id r0) ids
  /\ QueueUser.status r0 = waiting
  /\ exists t, r = QueueUser.set_wait_time t (QueueUser.set_status ready r0).

(** A row released while one of the queues [visited] was processed: a row
    of that queue, among those the queue's query selects in [d0]. *)
Definition released_by (d0 : DB) (visited : list Queue.t)
    (r0 r : QueueUser.t) : Prop :=
  exists q, In q visited
            /\ QueueUser.queue_id r0 = Queue.id q
            /\ was_released (List.map QueueUser.id (waiting_users_of q d0)) r0 r.

(** A row expired by the sweeper: it was waiting, and it differs from
    before in [status] only. *)
Definition was_expired (r0 r : QueueUser.t) : Prop :=
  QueueUser.status r0 = waiting /\ r = QueueUser.set_status expired r0.

(** Callbacks posted in the order of a list of participants: for each
    participant in turn, some number of posts carrying its token. *)
Inductive release_order : list QueueUser.t -> list string -> Prop :=
| release_order_nil : release_order [] []
| release_order_cons u k us tokens :
    release_order us tokens ->
    release_order (u :: us) (repeat (QueueUser.token u) k ++ tokens).


(** Following the design document's words, "an exception while processing
    one queue must not abort processing of the remaining queues": each
    queue processed under its own handler. *)
Definition process_queues_isolated
    (endpoint : list Event -> string -> CallbackData -> bool)
    (store_fault : StoreQuery -> bool) : M World WorkerError unit :=
  try_finally
    (run_query store_fault LoadQueues ;;
     let* queues := gets (fun w => active_queues (db w)) in
     for_each (fun queue =>
         try_except (process_queue endpoint store_fault queue) (fun _ => ret tt))
       queues)
    close.

(** A row that left [waiting]. *)
Definition was_waiting (r0 r : QueueUser.t) : Prop :=
  QueueUser.status r0 = waiting.

(* ===================================================================== *)
(** ** Sample data *)
(* ===================================================================== *)

Module Sample.
Definition shop : Application.t :=
  Application.mk 1 "https://shop.example/released" "key-shop" true false.
(** registered but switched off *)
Definition dormant : Application.t :=
  Application.mk 2 "https://dormant.example/released" "key-dormant" false false.

Definition checkout : Queue.t := Queue.mk 10 1 1 1 true false.
(** a queue of the shop that is switched off *)
Definition closed : Queue.t := Queue.mk 12 1 3 1 false false.
(** a queue of the shop that lets ten participants through per cycle *)
Definition turnstile : Queue.t := Queue.mk 30 1 10 1 true false.
Definition tickets : Queue.t := Queue.mk 11 1 2 1 true false.
Definition parked : Queue.t := Queue.mk 20 2 5 1 true false.

Definition visitor (uid queue_id : Z) (st : QueueUserStatus) (tok : string)
    (created : Z) : QueueUser.t :=
  QueueUser.mk uid queue_id "visitor" st tok None None (Some (created + 600))
               created true false.

Definition ann : QueueUser.t := visitor 100 10 waiting "tok-ann" 0.
Definition bob : QueueUser.t := visitor 101 10 waiting "tok-bob" 0.
Definition cyd : QueueUser.t := visitor 102 11 waiting "tok-cyd" 5.
Definition dee : QueueUser.t := visitor 103 10 ready "tok-dee" 0.
(** five participants of the tickets queue, three of them created at the
    same time *)
Definition eve : QueueUser.t := visitor 110 11 waiting "tok-eve" 7.
Definition fay : QueueUser.t := visitor 111 11 waiting "tok-fay" 3.
Definition gus : QueueUser.t := visitor 112 11 waiting "tok-gus" 3.
Definition hal : QueueUser.t := visitor 113 11 waiting "tok-hal" 9.

Definition store (us : list QueueUser.t) : DB :=
  mkDB [shop; dormant] [checkout; tickets; parked; closed] us [].

(** [n] participants of the turnstile, created at the times [n-1], ..., 0: the
    store scans the youngest first. *)
Fixpoint crowd (n : nat) : list QueueUser.t :=
  match n with
  | O => []
  | S n' =>
    visitor (1000 + Z.of_nat n') 30 waiting
            (String (Ascii.ascii_of_nat (65 + n')) EmptyString) (Z.of_nat n')
    :: crowd n'
  end.


Definition no_metrics : Metrics := mkMetrics 0 0 0 0 ∅ [].
Definition world (us : list QueueUser.t) (now : Z) : World :=
  mkWorld (store us) no_metrics now [] true.
Definition turnstile_world (us : list QueueUser.t) (now : Z) : World :=
  mkWorld (mkDB [shop] [closed; turnstile] us []) no_metrics now [] true.

(** an endpoint that always answers with a server error *)
Definition always_500 : list Event -> string -> CallbackData -> bool :=
  fun _ _ _ => false.
(** an endpoint that always answers 200 *)
Definition always_200 : list Event -> string -> CallbackData -> bool :=
  fun _ _ _ => true.
(** a store that never fails *)
Definition healthy : StoreQuery -> bool := fun _ => false.
(** a store that cannot load the participants of queue 10 *)
Definition checkout_down : StoreQuery -> bool :=
  fun q => match q with LoadWaiting 10 => true | _ => false end.
End Sample.


(* ===================================================================== *)
(** ** app/middleware/rate_limit.py: the client key and the middleware *)
(* ===================================================================== *)

Module RateLimit.

(** What the middleware reads of a [Request]: the two headers (as
    [request.headers.get] returns them), [request.client.host] ([None]
    when [request.client] is [None]) and [request.url.path]. *)
Record Request : Type := mkRequest {
  app_api_key : option string;
  x_forwarded_for : option string;
  client_host : option string;
  path : string
}.

(** [str.isspace] on the characters a header value can hold. *)
Definition is_space (a : Ascii.ascii) : bool :=
  let n := Ascii.nat_of_ascii a in
  ((9 <=? n) && (n <=? 13) || (28 <=? n) && (n <=? 32)
   || (n =? 133) || (n =? 160))%nat.

(** [s.split(',')[0]]; 44 is the code of the comma. *)
Fixpoint before_comma (s : string) : string :=
  match s with
  | EmptyString => EmptyString
  | String a s' =>
    if Ascii.eqb a (Ascii.ascii_of_nat 44) then EmptyString else String a (before_comma s')
  end.

Fixpoint lstrip (s : string) : string :=
  match s with
  | EmptyString => EmptyString
  | String a s' => if is_space a then lstrip s' else s
  end.

Fixpoint rstrip (s : string) : string :=
  match s with
  | EmptyString => EmptyString
  | String a s' =>
    match rstrip s' with
    | EmptyString => if is_space a then EmptyString else String a EmptyString
    | kept => String a kept
    end
  end.

(** [s.strip()] *)
Definition strip (s : string) : string := rstrip (lstrip s).

(** [get_client_id]; [None] stands for the [AttributeError] raised when
    neither header identifies the client and [request.client] is [None]. *)
Definition get_client_id (request : Request) : option string :=
  match app_api_key request with
  | Some (String a key) => Some ("api_key:" +:+ String a key)
  | _ =>
    match x_forwarded_for request with
    | Some (String a forwarded_for) =>
      Some ("ip:" +:+ strip (before_comma (String a forwarded_for)))
    | _ =>
      match client_host request with
      | Some host => Some ("ip:" +:+ host)
      | None => None
      end
    end
  end.

(** The body of a response: the one the middleware builds for a refused
    request, or whatever the rest of the application answered. *)
Inductive Content (B : Type) : Type :=
| RateLimitExceeded (retry_after remaining_requests : Z)
| Handled (body : B).
Arguments RateLimitExceeded {B} retry_after remaining_requests.
Arguments Handled {B} body.

Record Response (B : Type) : Type := mkResponse {
  status_code : Z;
  content : Content B;
  headers : gmap string string
}.
Arguments mkResponse {B} status_code content headers.
Arguments status_code {B} r.
Arguments content {B} r.
Arguments headers {B} r.

(** What leaves the middleware as an exception. *)
Inductive MiddlewareError (E : Type) : Type :=
| AttributeError
| Raised (e : E).
Arguments AttributeError {E}.
Arguments Raised {E} e.

(** The paths that are not rate limited. *)
Definition exempt_paths : list string :=
  ["/health"; "/metrics"; "/docs"; "/openapi.json"]%string.

(** The three headers the middleware sets on a response. *)
Definition rate_limit_headers (limit remaining reset : Z)
    (h : gmap string string) : gmap string string :=
  <["X-RateLimit-Reset" := pretty reset]>
    (<["X-RateLimit-Remaining" := pretty remaining]>
       (<["X-RateLimit-Limit" := pretty limit]> h)).

Section Middleware.
Context {S E B : Type}.

(** The rest of the application, over its own state. *)
Variable call_next : Request -> M S E (Response B).

(** [rate_limit_middleware] over the limiter and the state of the rest of
    the application; [t_allowed], [t_remaining] and [t_reset] are the three
    readings of [time.time()], in the order they are taken. *)
Definition rate_limit_middleware (request : Request)
    (t_allowed t_remaining t_reset : Z)
    : M (RateLimiter.t * S) (MiddlewareError E) (Response B) :=
  fun '(rl, s) =>
    match get_client_id request with
    | None => (Raise AttributeError, (rl, s))
    | Some client_id =>
      if existsb (String.eqb (path request)) exempt_paths then
        match call_next request s with
        | (Return response, s') => (Return response, (rl, s'))
        | (Raise e, s') => (Raise (Raised e), (rl, s'))
        end
      else
        let '(allowed, rl1) := RateLimiter.is_allowed t_allowed client_id rl in
        if negb allowed then
          let '(remaining, rl2) :=
            RateLimiter.get_remaining_requests t_remaining client_id rl1 in
          (Return (mkResponse 429 (RateLimitExceeded 60 remaining)
                     (rate_limit_headers (RateLimiter.max_requests rl2) remaining
                        (t_reset + 60) ∅)),
           (rl2, s))
        else
          match call_next request s with
          | (Raise e, s') => (Raise (Raised e), (rl1, s'))
          | (Return response, s') =>
            let '(remaining, rl2) :=
              RateLimiter.get_remaining_requests t_remaining client_id rl1 in
            (Return (mkResponse (status_code response) (content response)
                       (rate_limit_headers (RateLimiter.max_requests rl2) remaining
                          (t_reset + 60) (headers response))),
             (rl2, s'))
          end
    end.

End Middleware.

End RateLimit.

(** Calls in the order of their times. *)
Definition in_time_order (calls : list (Z * string)) : Prop :=
  StronglySorted (fun a b => fst a <= fst b) calls.

(* ===================================================================== *)
(** ** app/api/queue_users.py: the listing *)
(* ===================================================================== *)


(* ===================================================================== *)
(** ** app/api/queues.py and app/api/applications.py: soft deletion *)
(* ===================================================================== *)

Definition set_queues (qs : list Queue.t) (db : DB) : DB :=
  mkDB (applications db) qs (queue_users db) (logs db).

(** [delete_queue]: the loaded row is written back by key with
    [is_deleted = True]. *)
Definition delete_queue (id : Z) : M DB ApiError unit :=
  let* queue := gets (fun db =>
      first (fun q => (Queue.id q =? id) && negb (Queue.is_deleted q)) (queues db)) in
  match queue with
  | None => raise (HTTPException 404 "Queue not found")
  | Some queue =>
    modify (fun db =>
      set_queues
        (List.map (fun q =>
             if Queue.id q =? Queue.id queue
             then Queue.mk (Queue.id q) (Queue.application_id q)
                    (Queue.max_users_per_minute q) (Queue.priority q)
                    (Queue.is_active q) true
             else q) (queues db)) db)
  end.

(** [delete_application]: the handler assigns [is_deleted] on the loaded
    object and returns; it does not call [db.commit()], and [get_db] closes
    the session, which discards the assignment. *)
Definition delete_application (id : Z) : M DB ApiError unit :=
  let* app := gets (fun db =>
      first (fun a => (Application.id a =? id) && negb (Application.is_deleted a))
            (applications db)) in
  match app with
  | None => raise (HTTPException 404 "Application not found")
  | Some app => ret tt
  end.

(** The [unique=True] constraints on [token] and on [api_key]. *)
Definition unique_tokens (d : DB) : Prop :=
  List.NoDup (List.map QueueUser.token (queue_users d)).
Definition unique_api_keys (d : DB) : Prop :=
  List.NoDup (List.map Application.api_key (applications d)).


(** What the sweep at time [now] makes of a row. *)
Definition swept (now : Z) (r : QueueUser.t) : QueueUser.t :=
  if is_expired_at now r then QueueUser.set_status expired r else r.

(** Requests for the sample store. *)
Module SampleRequests.
(** a join of the shop's checkout queue, as the rest of the application *)
Definition join_handler (request : RateLimit.Request)
    : M DB ApiError (RateLimit.Response QueueUserResponse) :=
  let* r := join_queue (mkJoin 10 "v1") (RateLimit.app_api_key request)
              "real" 1000 "tok-new" 104 in
  ret (RateLimit.mkResponse 200 (RateLimit.Handled r) ∅).

Definition join_request : RateLimit.Request :=
  RateLimit.mkRequest (Some "key-shop"%string) None (Some "10.0.0.7"%string) "/join".
Definition health_request : RateLimit.Request :=
  RateLimit.mkRequest None (Some " 203.0.113.9 , 10.0.0.1"%string) None "/health".

(** a limiter with a ceiling of one, after one admitted request of the shop *)
Definition used_up : RateLimiter.t :=
  snd (RateLimiter.is_allowed 0 "api_key:key-shop" (RateLimiter.init 1)).
End SampleRequests.
(* ===================================================================== *)
(** ** Basic facts *)
(* ===================================================================== *)

Lemma QueueUserStatus_eqb_eq a b : QueueUserStatus_eqb a b = true <-> a = b.
Proof. destruct a, b; simpl; split; intros H; congruence. Qed.

(** The equations of the monad. *)
Lemma bind_gets {S E A B} (f : S -> A) (k : A -> M S E B) s :
  bind (gets f) k s = k (f s) s.
Proof. reflexivity. Qed.

Lemma bind_modify {S E B} (f : S -> S) (k : unit -> M S E B) s :
  bind (modify f) k s = k tt (f s).
Proof. reflexivity. Qed.

Lemma bind_ret {S E A B} (a : A) (k : A -> M S E B) s :
  bind (ret a) k s = k a s.
Proof. reflexivity. Qed.

Lemma bind_raise {S E A B} (e : E) (k : A -> M S E B) s :
  bind (raise e) k s = (Raise e, s).
Proof. reflexivity. Qed.

Lemma bind_assoc {S E A B C} (c : M S E A) (k : A -> M S E B) (h : B -> M S E C) s :
  bind (bind c k) h s = bind c (fun a => bind (k a) h) s.
Proof. unfold bind. destruct (c s) as [[a|e] s']; reflexivity. Qed.

Lemma first_Some {A} (p : A -> bool) rows x :
  first p rows = Some x -> In x rows /\ p x = true.
Proof. apply find_some. Qed.

Lemma first_None {A} (p : A -> bool) rows :
  first p rows = None -> forall x, In x rows -> p x = false.
Proof. apply find_none. Qed.

(** [first] finds a row as soon as one satisfies the predicate. *)
Lemma first_is_Some {A} (p : A -> bool) rows x :
  In x rows -> p x = true -> exists y, first p rows = Some y.
Proof.
  intros Hin Hp. destruct (first p rows) as [y|] eqn:E; [eauto|].
  rewrite (first_None _ _ E x Hin) in Hp. discriminate.
Qed.

Lemma update_by_id_ids uid f rows :
  (forall r, QueueUser.id (f r) = QueueUser.id r) ->
  List.map QueueUser.id (update_by_id uid f rows) = List.map QueueUser.id rows.
Proof.
  intros Hf. unfold update_by_id. induction rows as [|r rows IH]; simpl; [reflexivity|].
  rewrite IH. destruct (QueueUser.id r =? uid); [rewrite Hf|]; reflexivity.
Qed.

(** With unique keys, [by_id] returns the row that carries the key. *)
Lemma by_id_In r d :
  unique_ids d -> In r (queue_users d) -> by_id (QueueUser.id r) d = Some r.
Proof.
  unfold unique_ids, by_id, first.
  generalize (queue_users d) as rows.
  induction rows as [|x rows IH]; simpl; intros Hnd Hin; [contradiction|].
  inversion Hnd as [|? ? Hx Hnd']; subst.
  destruct Hin as [->|Hin].
  - rewrite Z.eqb_refl. reflexivity.
  - destruct (QueueUser.id x =? QueueUser.id r) eqn:E.
    + apply Z.eqb_eq in E. exfalso. apply Hx. rewrite E.
      apply in_map. exact Hin.
    + apply IH; assumption.
Qed.

(* ===================================================================== *)
(** ** Admission: [join_queue] *)
(* ===================================================================== *)

Lemma join_queue_cases jq key mode now tok uid d res :
  join_queue jq key mode now tok uid d = res ->
  (exists detail, res = (Raise (HTTPException 401 detail), d)
     /\ forall a, ~ resolves_application d key a)
  \/ (exists detail a, res = (Raise (HTTPException 404 detail), d)
     /\ application_of d key = Some a
     /\ resolves_application d key a
     /\ (forall a', resolves_application d key a' ->
           Application.id a' = Application.id a ->
           forall q, ~ resolves_queue d a' (join_queue_id jq) q))
  \/ (exists a q, application_of d key = Some a
     /\ resolves_application d key a
     /\ resolves_queue d a (join_queue_id jq) q
     /\ res =
        if String.eqb mode "simulation" then
          (Return (mkResponse uid (Queue.id q) (join_visitor_id jq) ready tok
                     None (Some 0) (Some (now + 5 * 60)) now), d)
        else
          let u := QueueUser.mk uid (Queue.id q) (join_visitor_id jq) waiting tok
                     None None (Some (now + 10 * 60)) now true false in
          (add_queue_user u ;; ret (to_response u)) d).
Proof.
  intros <-. unfold join_queue.
  destruct key as [key|].
  2:{ left. eexists; split; [reflexivity|].
      intros a (_ & H & _). discriminate. }
  destruct key as [|c key].
  { left. eexists; split; [reflexivity|].
    intros a (_ & H & Hne & _). inversion H as [H']. congruence. }
  set (k := String c key).
  rewrite bind_gets.
  destruct (first _ (applications d)) as [a|] eqn:Ea.
  2:{ left. eexists; split; [reflexivity|].
      intros a (Hin & Hk & _ & Hdel).
      pose proof (first_None _ _ Ea a Hin) as Hf. simpl in Hf.
      inversion Hk as [Hk']. rewrite <- Hk' in Hf.
      rewrite String.eqb_refl, Hdel in Hf. discriminate. }
  assert (Hof : application_of d (Some k) = Some a) by exact Ea.
  apply first_Some in Ea as [Hin Hp].
  apply andb_true_iff in Hp as [Hk Hdel].
  apply String.eqb_eq in Hk. apply negb_true_iff in Hdel.
  assert (Hres : resolves_application d (Some k) a).
  { repeat split; [assumption| congruence | rewrite Hk; discriminate | assumption]. }
  rewrite bind_gets.
  destruct (first _ (queues d)) as [q|] eqn:Eq.
  2:{ right; left. exists "Queue not found"%string, a. split; [reflexivity|].
      split; [exact Hof|]. split; [exact Hres|].
      intros a' _ Hid q (Hq & Hqid & Happ & Hqdel).
      pose proof (first_None _ _ Eq q Hq) as Hf. simpl in Hf.
      rewrite Hqid, Happ, Hid, !Z.eqb_refl, Hqdel in Hf. discriminate. }
  apply first_Some in Eq as [Hq Hp].
  apply andb_true_iff in Hp as [Hp Hqdel].
  apply andb_true_iff in Hp as [Hqid Happ].
  apply Z.eqb_eq in Hqid, Happ. apply negb_true_iff in Hqdel.
  right; right. exists a, q. split; [exact Hof|]. split; [exact Hres|]. split.
  { repeat split; assumption. }
  destruct (String.eqb mode "simulation"); reflexivity.
Qed.

(** The application and the queue are looked up among the rows that are
    not deleted; [is_active] is part of neither query: a join with the key
    of an application that is switched off succeeds, and so does a join to
    a queue that is switched off. *)
Lemma join_queue_ignores_is_active :
  ~ (forall jq key mode now tok uid d r d',
       join_queue jq key mode now tok uid d = (Return r, d') ->
       exists a, resolves_application d key a /\ Application.is_active a = true)
  /\ ~ (forall jq key mode now tok uid d r d',
         join_queue jq key mode now tok uid d = (Return r, d') ->
         forall a q, resolves_application d key a ->
                     resolves_queue d a (join_queue_id jq) q ->
                     Queue.is_active q = true).
Proof.
  split; intros H.
  - destruct (H (mkJoin 20 "v7") (Some "key-dormant"%string) "real"%string 1000
                "tok-new"%string 104 (Sample.store []) _ _ eq_refl)
      as (a & (Hin & Hkey & _) & Hact).
    simpl in Hin. destruct Hin as [<-|[<-|[]]]; simpl in *; discriminate.
  - assert (Hq : Queue.is_active Sample.closed = true); [|discriminate Hq].
    apply (H (mkJoin 12 "v8") (Some "key-shop"%string) "real"%string 1000
             "tok-new"%string 104 (Sample.store []) _ _ eq_refl Sample.shop).
    + repeat split; simpl; auto; discriminate.
    + repeat split; simpl; auto 10.
Qed.

(** C2 (as amended).  A join fails with a 401 unless the credential names
    an application that is not deleted, and with a 404 unless the queue id
    names a queue of that application that is not deleted; a successful join
    is always to a queue owned by the application of the credential.  The
    [is_active] flags of the application and of the queue are not consulted. *)
Theorem join_queue_validates_credential_and_queue
    jq key mode now tok uid d o d' :
  join_queue jq key mode now tok uid d = (o, d') ->
  ((forall a, ~ resolves_application d key a) ->
     exists detail, o = Raise (HTTPException 401 detail) /\ d' = d)
  /\ ((exists a, resolves_application d key a) ->
      (forall a q, resolves_application d key a ->
                   ~ resolves_queue d a (join_queue_id jq) q) ->
      exists detail, o = Raise (HTTPException 404 detail) /\ d' = d)
  /\ (forall r, o = Return r ->
      exists a q, resolves_application d key a
                  /\ resolves_queue d a (join_queue_id jq) q
                  /\ resp_queue_id r = Queue.id q).
Proof.
  intros Hrun.
  destruct (join_queue_cases _ _ _ _ _ _ _ _ Hrun)
    as [(detail & E & Hno) | [(detail & a & E & _ & Ha & Hnoq) | (a & q & _ & Ha & Hq & E)]].
  - inversion E; subst. repeat split.
    + intros _. eauto.
    + intros (a & Ha) _. destruct (Hno a Ha).
    + intros r Hr. discriminate.
  - inversion E; subst. repeat split.
    + intros Hno. destruct (Hno a Ha).
    + intros _ _. eauto.
    + intros r Hr. discriminate.
  - repeat split.
    + intros Hno. destruct (Hno a Ha).
    + intros _ Hnoq. destruct (Hnoq a q Ha Hq).
    + intros r ->. exists a, q. repeat split; try apply Ha; try apply Hq.
      destruct (String.eqb mode "simulation").
      * inversion E; subst. reflexivity.
      * cbv beta zeta in E. unfold bind, add_queue_user in E.
        destruct (existsb _ (queue_users d)); [discriminate|].
        inversion E; subst. reflexivity.
Qed.

Lemma join_queue_validates_credential_and_queue_witness :
  exists a q,
    resolves_application (Sample.store []) (Some "key-shop"%string) a
    /\ resolves_queue (Sample.store []) a 10 q
    /\ 10 = Queue.id q.
Proof.
  pose proof (join_queue_validates_credential_and_queue
                (mkJoin 10 "v1") (Some "key-shop"%string) "real"%string 1000
                "tok-new"%string 104 (Sample.store []) _ _ eq_refl) as (_ & _ & H).
  exact (H _ eq_refl).
Defined.

(* ===================================================================== *)
(** ** Status lookup and cancellation *)
(* ===================================================================== *)

Lemma queue_status_eq token d :
  queue_status token d =
  match by_token token d with
  | None => (Raise (HTTPException 404 "Token not found"), d)
  | Some u => (Return (to_response u), d)
  end.
Proof.
  unfold queue_status. rewrite bind_gets. destruct (by_token token d); reflexivity.
Qed.

Lemma cancel_queue_eq token d :
  cancel_queue token d =
  match by_token token d with
  | None => (Raise (HTTPException 404 "Token not found"), d)
  | Some u =>
    (Return tt,
     set_queue_users
       (update_by_id (QueueUser.id u)
          (fun r => QueueUser.set_is_deleted true (QueueUser.set_status rejected r))
          (queue_users d)) d)
  end.
Proof.
  unfold cancel_queue. rewrite bind_gets. destruct (by_token token d); reflexivity.
Qed.

(** A token that belongs to no stored participant resolves to nothing. *)
Lemma by_token_fresh token d :
  (forall u, In u (queue_users d) -> QueueUser.token u <> token) ->
  by_token token d = None.
Proof.
  intros Hfresh. unfold by_token.
  destruct (first _ (queue_users d)) as [u|] eqn:E; [|reflexivity].
  apply first_Some in E as [Hin Hp].
  apply andb_true_iff in Hp as [Ht _]. apply String.eqb_eq in Ht.
  destruct (Hfresh u Hin Ht).
Qed.

(** C9.  A join in simulation mode that passes validation answers with a
    participant that is already ready and writes nothing: the store is the
    one it was, so every status lookup answers as before, a fabricated
    token that no stored participant carries is not found, and the release
    scheduler does what it would have done; the same request in real mode
    passes validation too. *)
Theorem join_queue_simulation_is_transient jq key now tok uid d r d' :
  join_queue jq key "simulation" now tok uid d = (Return r, d') ->
  resp_status r = ready /\ resp_token r = tok
  /\ d' = d
  /\ (forall code detail d2,
        join_queue jq key "real" now tok uid d
        <> (Raise (HTTPException code detail), d2))
  /\ (forall t, queue_status t d' = queue_status t d)
  /\ ((forall u, In u (queue_users d) -> QueueUser.token u <> tok) ->
      exists detail,
        queue_status (resp_token r) d' = (Raise (HTTPException 404 detail), d'))
  /\ (forall endpoint store_fault w,
        process_queues endpoint store_fault (set_db d' w)
        = process_queues endpoint store_fault (set_db d w)).
Proof.
  intros Hrun.
  assert (Hreal := join_queue_cases jq key "real" now tok uid d _ eq_refl).
  destruct (join_queue_cases _ _ _ _ _ _ _ _ Hrun)
    as [(detail & E & Hno) | [(detail & a & E & _) | (a & q & Hof & Ha & Hq & E)]];
    try discriminate.
  simpl in E. inversion E; subst r d'. clear E. simpl.
  repeat split.
  - intros code detail d2 Hr.
    destruct Hreal
      as [(detail' & E & Hno) | [(detail' & a' & E & Hof' & Ha' & Hnoq)
                                | (a' & q' & _ & Ha' & Hq' & E)]].
    + destruct (Hno a Ha).
    + rewrite Hof in Hof'. inversion Hof'; subst a'.
      destruct (Hnoq a Ha eq_refl q Hq).
    + rewrite Hr in E. simpl in E. cbv beta zeta in E.
      unfold bind, add_queue_user in E.
      destruct (existsb _ (queue_users d)); discriminate.
  - intros Hfresh. rewrite queue_status_eq, (by_token_fresh _ _ Hfresh). eauto.
Qed.

(* ===================================================================== *)
(** ** Loops *)
(* ===================================================================== *)

(** A loop whose body never raises runs to its end and carries an
    invariant indexed by the elements already visited. *)
Lemma for_each_invariant {S E A} (body : A -> M S E unit)
    (I : list A -> S -> Prop) (xs : list A) :
  (forall visited x s, In x xs -> I visited s ->
     exists s', body x s = (Return tt, s') /\ I (visited ++ [x]) s') ->
  forall s, I [] s -> exists s', for_each body xs s = (Return tt, s') /\ I xs s'.
Proof.
  intros Hbody.
  assert (H : forall rest visited s, incl rest xs -> I visited s ->
            exists s', for_each body rest s = (Return tt, s') /\ I (visited ++ rest) s').
  { induction rest as [|x rest IH]; intros visited s Hincl Hs.
    - exists s. rewrite app_nil_r. split; [reflexivity|exact Hs].
    - destruct (Hbody visited x s (Hincl x (or_introl eq_refl)) Hs) as (s1 & E1 & H1).
      destruct (IH (visited ++ [x]) s1) as (s2 & E2 & H2);
        [intros y Hy; apply Hincl; right; exact Hy | exact H1 |].
      exists s2. split.
      + simpl. unfold bind. rewrite E1. exact E2.
      + rewrite <- app_assoc in H2. exact H2. }
  intros s Hs. exact (H xs [] s (incl_refl xs) Hs).
Qed.

(** A loop stops at the first element whose body raises: the elements
    after it are not visited. *)
Lemma for_each_raise {S E A} (body : A -> M S E unit) xs x ys s s1 s2 e :
  for_each body xs s = (Return tt, s1) ->
  body x s1 = (Raise e, s2) ->
  for_each body (xs ++ x :: ys) s = (Raise e, s2).
Proof.
  revert s. induction xs as [|y xs IH]; simpl; intros s Hxs Hx.
  - inversion Hxs; subst. unfold bind. rewrite Hx. reflexivity.
  - unfold bind in *. destruct (body y s) as [[[]|e'] s'] eqn:Ey; [|discriminate].
    apply IH; assumption.
Qed.

Lemma for_each_app {S E A} (body : A -> M S E unit) xs ys s s1 :
  for_each body xs s = (Return tt, s1) ->
  for_each body (xs ++ ys) s = for_each body ys s1.
Proof.
  revert s. induction xs as [|y xs IH]; simpl; intros s Hxs.
  - inversion Hxs; subst. reflexivity.
  - unfold bind in *. destruct (body y s) as [[[]|e'] s'] eqn:Ey; [|discriminate].
    apply IH; assumption.
Qed.

(** An invariant of the state that every turn keeps, however the turn
    ends, holds when the loop ends, however it ends. *)
Lemma for_each_preserves {S E A} (body : A -> M S E unit) (I : S -> Prop) xs :
  (forall x s o s', In x xs -> I s -> body x s = (o, s') -> I s') ->
  forall s o s', I s -> for_each body xs s = (o, s') -> I s'.
Proof.
  intros Hbody.
  assert (H : forall rest, incl rest xs ->
            forall s o s', I s -> for_each body rest s = (o, s') -> I s').
  { induction rest as [|x rest IH]; intros Hincl s o s' Hs Hrun.
    - inversion Hrun; subst. exact Hs.
    - simpl in Hrun. unfold bind in Hrun.
      destruct (body x s) as [[[]|e] s1] eqn:E1.
      + apply (IH (fun y Hy => Hincl y (or_intror Hy)) s1 o s'); [|exact Hrun].
        apply (Hbody x s _ s1 (Hincl x (or_introl eq_refl)) Hs E1).
      + inversion Hrun; subst.
        apply (Hbody x s _ s' (Hincl x (or_introl eq_refl)) Hs E1). }
  apply H. apply incl_refl.
Qed.

(* ===================================================================== *)
(** ** The callback dispatcher *)
(* ===================================================================== *)

Lemma posted_tokens_app tr1 tr2 :
  posted_tokens (tr1 ++ tr2) = posted_tokens tr1 ++ posted_tokens tr2.
Proof. unfold posted_tokens. apply flat_map_app. Qed.

Lemma slept_app tr1 tr2 : slept (tr1 ++ tr2) = slept tr1 ++ slept tr2.
Proof. unfold slept. apply flat_map_app. Qed.

Ltac solve_frame := repeat split; simpl; auto; try lia.

Lemma dispatch_frame_refl w : dispatch_frame w w.
Proof. repeat split. lia. Qed.

Lemma dispatch_frame_trans w1 w2 w3 :
  dispatch_frame w1 w2 -> dispatch_frame w2 w3 -> dispatch_frame w1 w3.
Proof.
  unfold dispatch_frame. intros (a1 & a2 & a3 & a4 & a5 & a6 & a7 & a8)
                                (b1 & b2 & b3 & b4 & b5 & b6 & b7 & b8).
  repeat split; try congruence. lia.
Qed.

Section Dispatcher.
Variable endpoint : list Event -> string -> CallbackData -> bool.
Variable store_fault : StoreQuery -> bool.

(** The retry loop never raises, writes nothing but the success counter,
    and posts the same body at most once per attempt. *)
Lemma callback_attempts_total url data retries attempts :
  forall w, exists b w' k,
    callback_attempts endpoint url data retries attempts w = (Return b, w')
    /\ dispatch_frame w w'
    /\ logs (db w') = logs (db w)
    /\ CALLBACK_FAILURE (metrics w') = CALLBACK_FAILURE (metrics w)
    /\ posted_tokens (trace w') = posted_tokens (trace w) ++ repeat (cb_token data) k
    /\ (k <= length attempts)%nat.
Proof.
  induction attempts as [|attempt rest IH]; intros w.
  - exists false, w, 0%nat. simpl. rewrite app_nil_r.
    split; [reflexivity|]. split; [apply dispatch_frame_refl|]. auto.
  - simpl. unfold bind at 1, client_post at 1.
    destruct (endpoint (trace w) url data).
    + eexists true, _, 1%nat. rewrite bind_modify. split; [reflexivity|].
      simpl. rewrite posted_tokens_app.
      split; [solve_frame|]. repeat split; auto. lia.
    + set (w1 := emit (Post url data) w).
      assert (Hpow : 0 <= 2 ^ attempt) by (apply Z.pow_nonneg; lia).
      destruct (attempt <? retries - 1).
      * unfold sleep. rewrite bind_modify.
        destruct (IH (advance (2 ^ attempt) (emit (Sleep (2 ^ attempt)) w1)))
          as (b & w' & k & E & Hf & Hl & Hc & Ht & Hk).
        exists b, w', (S k). split; [exact E|].
        split; [|split; [|split; [|split]]].
        -- eapply dispatch_frame_trans; [|exact Hf]. solve_frame.
        -- rewrite Hl. reflexivity.
        -- rewrite Hc. reflexivity.
        -- rewrite Ht. simpl. rewrite !posted_tokens_app. simpl.
           rewrite app_nil_r, <- app_assoc. reflexivity.
        -- simpl. lia.
      * rewrite bind_ret.
        destruct (IH w1) as (b & w' & k & E & Hf & Hl & Hc & Ht & Hk).
        exists b, w', (S k). split; [exact E|].
        split; [|split; [|split; [|split]]].
        -- eapply dispatch_frame_trans; [|exact Hf]. solve_frame.
        -- rewrite Hl. reflexivity.
        -- rewrite Hc. reflexivity.
        -- rewrite Ht. simpl. rewrite !posted_tokens_app. simpl.
           rewrite <- app_assoc. reflexivity.
        -- simpl. lia.
Qed.

(** A dispatch never raises and leaves the participants alone. *)
Lemma send_callback_total user queue :
  forall w, exists w' k,
    send_callback endpoint user queue w = (Return tt, w')
    /\ dispatch_frame w w'
    /\ posted_tokens (trace w') = posted_tokens (trace w) ++ repeat (QueueUser.token user) k
    /\ (k <= 3)%nat.
Proof.
  intros w. unfold send_callback. rewrite bind_gets.
  destruct (first _ (applications (db w))) as [app|].
  2:{ exists w, 0%nat. simpl. rewrite app_nil_r.
      split; [reflexivity|]. split; [apply dispatch_frame_refl|]. split; [auto|lia]. }
  rewrite bind_gets.
  match goal with
  | |- context [callback_attempts endpoint ?url ?data ?r ?a] =>
    destruct (callback_attempts_total url data r a w)
      as (b & w1 & k & E & Hf & Hl & Hc & Ht & Hk)
  end.
  unfold bind at 1. rewrite E.
  destruct b; simpl.
  - rewrite bind_ret. unfold modify. eexists _, k. split; [reflexivity|].
    split; [|split; [exact Ht | exact Hk]].
    eapply dispatch_frame_trans; [exact Hf|]. solve_frame.
  - rewrite bind_assoc, bind_modify, bind_modify.
    unfold modify. eexists _, k. split; [reflexivity|].
    split; [|split; [exact Ht | exact Hk]].
    eapply dispatch_frame_trans; [exact Hf|]. solve_frame.
Qed.

(** After [release_user] the rows with the key of the released object are
    ready, whatever they were. *)
Lemma release_user_total user queue :
  forall w, exists w' k,
    release_user endpoint user queue w = (Return tt, w')
    /\ queue_users (db w') =
       update_by_id (QueueUser.id user)
         (released (clock w) (QueueUser.created_at user)) (queue_users (db w))
    /\ applications (db w') = applications (db w)
    /\ queues (db w') = queues (db w)
    /\ running w' = running w
    /\ USERS_RELEASED (metrics w') = USERS_RELEASED (metrics w)
    /\ USERS_EXPIRED (metrics w') = USERS_EXPIRED (metrics w)
    /\ QUEUE_SIZE (metrics w') = QUEUE_SIZE (metrics w)
    /\ clock w <= clock w'
    /\ posted_tokens (trace w') =
       posted_tokens (trace w) ++ repeat (QueueUser.token user) k
    /\ (k <= 3)%nat.
Proof.
  intros w. unfold release_user. rewrite bind_gets, bind_modify.
  match goal with
  | |- context [send_callback endpoint ?u ?q ?w1] =>
    destruct (send_callback_total u q w1)
      as (w' & k & E & (F1 & F2 & F3 & F4 & F5 & F6 & F7 & F8) & Ht & Hk)
  end.
  exists w', k. split; [exact E|].
  repeat split; try assumption.
Qed.

End Dispatcher.

Section DispatcherRetries.
Variable endpoint : list Event -> string -> CallbackData -> bool.

(** One turn of the retry loop, by the answer of the endpoint. *)
Lemma callback_attempts_success url data retries attempt rest w :
  endpoint (trace w) url data = true ->
  callback_attempts endpoint url data retries (attempt :: rest) w =
  (Return true,
   set_metrics (inc_CALLBACK_SUCCESS (metrics w)) (emit (Post url data) w)).
Proof.
  intros H. simpl. unfold bind at 1, client_post at 1. rewrite H. reflexivity.
Qed.

Lemma callback_attempts_backoff url data retries attempt rest w :
  endpoint (trace w) url data = false ->
  attempt < retries - 1 ->
  callback_attempts endpoint url data retries (attempt :: rest) w =
  callback_attempts endpoint url data retries rest
    (mkWorld (db w) (metrics w) (clock w + 2 ^ attempt)
             (trace w ++ [Post url data; Sleep (2 ^ attempt)]) (running w)).
Proof.
  intros H Hlt. simpl. unfold bind at 1, client_post at 1. rewrite H.
  apply Z.ltb_lt in Hlt. rewrite Hlt. unfold sleep. rewrite bind_modify.
  unfold advance, emit. simpl. rewrite <- app_assoc. reflexivity.
Qed.

Lemma callback_attempts_last url data retries attempt w :
  endpoint (trace w) url data = false ->
  retries - 1 <= attempt ->
  callback_attempts endpoint url data retries [attempt] w =
  (Return false, emit (Post url data) w).
Proof.
  intros H Hge. simpl. unfold bind at 1, client_post at 1. rewrite H.
  apply Z.ltb_ge in Hge. rewrite Hge. reflexivity.
Qed.

(** C5.  When the application of the queue is found: if every one of the
    three attempts fails, [send_callback] posts three times, sleeping 1
    and then 2 between the attempts, adds one log row that references the
    application, the queue and the participant, and increments the failure
    counter once; if an attempt succeeds after [k] failures, it increments
    the success counter and the successful [POST] is the last event.  In
    both cases the participants are left as they are, and the rows that
    [release_user] wrote before dispatching are ready. *)
Theorem send_callback_bounded_retries user queue app w :
  first (fun a => Application.id a =? Queue.application_id queue)
        (applications (db w)) = Some app ->
  let url := Application.callback_url app in
  let data := callback_data_of user queue in
  ((forall j, (j < 3)%nat ->
      endpoint (trace w ++ backoff_prefix url data j) url data = false) ->
   exists w',
     send_callback endpoint user queue w = (Return tt, w')
     /\ trace w' = trace w ++ [Post url data; Sleep 1; Post url data;
                               Sleep 2; Post url data]
     /\ slept (trace w') = slept (trace w) ++ [1; 2]
     /\ logs (db w') =
        logs (db w) ++
          [Log.mk "callback_failure" "Callback failed after 3 attempts"
             (Some (Application.id app)) (Some (Queue.id queue))
             (Some (QueueUser.id user))]
     /\ CALLBACK_FAILURE (metrics w') = CALLBACK_FAILURE (metrics w) + 1
     /\ CALLBACK_SUCCESS (metrics w') = CALLBACK_SUCCESS (metrics w)
     /\ queue_users (db w') = queue_users (db w))
  /\ (forall k, (k < 3)%nat ->
      (forall j, (j < k)%nat ->
         endpoint (trace w ++ backoff_prefix url data j) url data = false) ->
      endpoint (trace w ++ backoff_prefix url data k) url data = true ->
      exists w',
        send_callback endpoint user queue w = (Return tt, w')
        /\ trace w' = trace w ++ backoff_prefix url data k ++ [Post url data]
        /\ CALLBACK_SUCCESS (metrics w') = CALLBACK_SUCCESS (metrics w) + 1
        /\ CALLBACK_FAILURE (metrics w') = CALLBACK_FAILURE (metrics w)
        /\ logs (db w') = logs (db w)
        /\ queue_users (db w') = queue_users (db w))
  /\ (forall o w', release_user endpoint user queue w = (o, w') ->
      forall r, In r (queue_users (db w')) ->
                QueueUser.id r = QueueUser.id user ->
                QueueUser.status r = ready).
Proof.
  intros Happ url data.
  assert (Hsend : forall w0, applications (db w0) = applications (db w) ->
    send_callback endpoint user queue w0 =
    (let* start_time := gets clock in
     let* success := callback_attempts endpoint url data 3 [0; 1; 2] in
     (if negb success then
        modify (fun w => set_metrics (inc_CALLBACK_FAILURE (metrics w)) w) ;;
        modify (fun w => set_db (set_logs
          (logs (db w) ++
             [Log.mk "callback_failure" "Callback failed after 3 attempts"
                (Some (Application.id app)) (Some (Queue.id queue))
                (Some (QueueUser.id user))]) (db w)) w)
      else ret tt) ;;
     modify (fun w =>
       set_metrics (observe_CALLBACK_DURATION (clock w - start_time) (metrics w)) w))
    w0).
  { intros w0 Hw0. unfold send_callback. rewrite bind_gets, Hw0, Happ. reflexivity. }
  split; [|split].
  - intros Hfail. rewrite (Hsend w eq_refl). clear Hsend.
    pose proof (Hfail 0%nat ltac:(lia)) as H0.
    pose proof (Hfail 1%nat ltac:(lia)) as H1.
    pose proof (Hfail 2%nat ltac:(lia)) as H2.
    unfold backoff_prefix, range in H0, H1, H2. simpl in H0, H1, H2.
    change (2 ^ Z.of_nat 0) with 1 in H1, H2.
    change (2 ^ Z.of_nat 1) with 2 in H2.
    rewrite app_nil_r in H0.
    rewrite bind_gets. unfold bind at 1.
    rewrite callback_attempts_backoff by (assumption || lia).
    rewrite callback_attempts_backoff
      by (simpl; rewrite <- ?app_assoc; simpl; assumption || lia).
    rewrite callback_attempts_last
      by (simpl; rewrite <- ?app_assoc; simpl; assumption || lia).
    simpl negb. cbv iota. rewrite bind_assoc, bind_modify, bind_modify.
    unfold modify. eexists. split; [reflexivity|]. simpl.
    repeat split.
    + rewrite <- !app_assoc. reflexivity.
    + rewrite <- !app_assoc, slept_app. reflexivity.
  - intros k Hk Hfail Hok. rewrite (Hsend w eq_refl). clear Hsend.
    rewrite bind_gets. unfold bind at 1.
    destruct k as [|[|[|k]]]; [| | |lia].
    + unfold backoff_prefix, range in Hok. simpl in Hok. rewrite app_nil_r in Hok.
      rewrite callback_attempts_success by assumption.
      simpl negb. cbv iota. rewrite bind_ret.
      unfold modify. eexists. split; [reflexivity|]. simpl. repeat split.
    + pose proof (Hfail 0%nat ltac:(lia)) as H0.
      unfold backoff_prefix, range in H0, Hok. simpl in H0, Hok.
      change (2 ^ Z.of_nat 0) with 1 in Hok. rewrite app_nil_r in H0.
      rewrite callback_attempts_backoff by (assumption || lia).
      rewrite callback_attempts_success by (simpl; assumption).
      simpl negb. cbv iota. rewrite bind_ret.
      unfold modify. eexists. split; [reflexivity|]. simpl. repeat split.
      rewrite <- !app_assoc. reflexivity.
    + pose proof (Hfail 0%nat ltac:(lia)) as H0.
      pose proof (Hfail 1%nat ltac:(lia)) as H1.
      unfold backoff_prefix, range in H0, H1, Hok. simpl in H0, H1, Hok.
      change (2 ^ Z.of_nat 0) with 1 in H1, Hok.
      change (2 ^ Z.of_nat 1) with 2 in Hok.
      rewrite app_nil_r in H0.
      rewrite callback_attempts_backoff by (assumption || lia).
      rewrite callback_attempts_backoff
        by (simpl; rewrite <- ?app_assoc; simpl; assumption || lia).
      rewrite callback_attempts_success
        by (simpl; rewrite <- ?app_assoc; simpl; assumption).
      simpl negb. cbv iota. rewrite bind_ret.
      unfold modify. eexists. split; [reflexivity|]. simpl. repeat split.
      rewrite <- !app_assoc. reflexivity.
  - intros o w' Hrel r Hin Hid.
    destruct (release_user_total endpoint user queue w)
      as (w1 & n & E & Hrows & _).
    rewrite E in Hrel. inversion Hrel; subst w1 o. clear Hrel.
    rewrite Hrows in Hin. unfold update_by_id in Hin.
    apply in_map_iff in Hin as (r0 & Hr & _).
    destruct (QueueUser.id r0 =? QueueUser.id user) eqn:Eid.
    + subst r. reflexivity.
    + subst r0. apply Z.eqb_neq in Eid. contradiction.
Qed.

End DispatcherRetries.

(* ===================================================================== *)
(** ** Rows written by key *)
(* ===================================================================== *)

Lemma id_determines_row rows a b :
  List.NoDup (List.map QueueUser.id rows) ->
  In a rows -> In b rows -> QueueUser.id a = QueueUser.id b -> a = b.
Proof.
  induction rows as [|x rows IH]; simpl; intros Hnd Ha Hb Hid; [contradiction|].
  inversion Hnd as [|? ? Hx Hnd']; subst.
  destruct Ha as [->|Ha], Hb as [->|Hb]; auto.
  - exfalso. apply Hx. rewrite Hid. apply in_map. exact Hb.
  - exfalso. apply Hx. rewrite <- Hid. apply in_map. exact Ha.
Qed.

Lemma NoDup_map_filter {A B} (f : A -> B) (p : A -> bool) l :
  List.NoDup (List.map f l) -> List.NoDup (List.map f (List.filter p l)).
Proof.
  induction l as [|x l IH]; simpl; intros Hnd; [constructor|].
  inversion Hnd as [|? ? Hx Hnd']; subst.
  destruct (p x); simpl; [constructor|]; auto.
  intros Hin. apply Hx. apply in_map_iff in Hin as (y & Hy & Hin).
  apply filter_In in Hin as [Hin _]. rewrite <- Hy. apply in_map. exact Hin.
Qed.

Lemma rows_step_refl P rows : rows_step P rows rows.
Proof.
  unfold rows_step. induction rows; constructor; auto.
  split; [reflexivity | left; reflexivity].
Qed.

Lemma rows_step_impl (P Q : QueueUser.t -> QueueUser.t -> Prop) rows0 rows :
  (forall r0 r, In r0 rows0 -> P r0 r -> Q r0 r) ->
  rows_step P rows0 rows -> rows_step Q rows0 rows.
Proof.
  unfold rows_step. intros HPQ H. induction H as [|r0 r rows0 rows [Hid Hr] _ IH];
    constructor.
  - split; [exact Hid|]. destruct Hr as [->|Hr]; [left; reflexivity|right].
    apply HPQ; [left; reflexivity | exact Hr].
  - apply IH. intros a b Ha. apply HPQ. right. exact Ha.
Qed.

Lemma rows_step_ids P rows0 rows :
  rows_step P rows0 rows ->
  List.map QueueUser.id rows = List.map QueueUser.id rows0.
Proof.
  unfold rows_step. induction 1 as [|r0 r rows0 rows [Hid _] _ IH]; simpl;
    [reflexivity|]. rewrite Hid, IH. reflexivity.
Qed.

(** Rows that have left [waiting] stay out of the relation's left side:
    two steps compose. *)
Lemma rows_step_was_waiting_trans rows0 rows1 rows2 :
  rows_step was_waiting rows0 rows1 ->
  rows_step was_waiting rows1 rows2 ->
  rows_step was_waiting rows0 rows2.
Proof.
  unfold rows_step. intros H01. revert rows2.
  induction H01 as [|r0 r1 rows0 rows1 [Hid1 H1] _ IH]; intros rows2 H12;
    inversion H12 as [|? r2 ? rows2' [Hid2 H2] H12']; subst; constructor.
  - split; [congruence|].
    destruct H1 as [->|H1]; [|right; exact H1].
    destruct H2 as [->|H2]; [left; reflexivity | right; exact H2].
  - apply IH. exact H12'.
Qed.

(** Writing the row of a loaded object [x] back by key, when keys are
    unique: only the row that [x] was loaded from moves. *)
Lemma update_by_id_rows_step (P : QueueUser.t -> QueueUser.t -> Prop) x f rows0 rows :
  List.NoDup (List.map QueueUser.id rows0) ->
  In x rows0 ->
  (forall r, QueueUser.id (f r) = QueueUser.id r) ->
  (forall r, r = x \/ P x r -> P x (f r)) ->
  rows_step P rows0 rows ->
  rows_step P rows0 (update_by_id (QueueUser.id x) f rows).
Proof.
  intros Hnd Hx Hfid HP Hstep.
  assert (Hpart : forall part cur,
            (forall r0, In r0 part -> In r0 rows0) ->
            Forall2 (row_step P) part cur ->
            Forall2 (row_step P) part (update_by_id (QueueUser.id x) f cur)).
  { induction part as [|r0 part IH]; intros cur Hall Hpart;
      inversion Hpart as [|? r ? cur' [Hid Hr] Hpart']; subst; simpl; constructor.
    - destruct (QueueUser.id r =? QueueUser.id x) eqn:E.
      + apply Z.eqb_eq in E.
        assert (r0 = x) as ->.
        { apply (id_determines_row rows0); auto.
          - apply Hall. left. reflexivity.
          - congruence. }
        split; [rewrite Hfid; exact Hid|]. right. apply HP. exact Hr.
      + split; assumption.
    - apply IH; [|exact Hpart']. intros a Ha. apply Hall. right. exact Ha. }
  apply Hpart; auto.
Qed.

(** With unique keys, the row found under the key of [r0] is the row that
    [r0] has become. *)
Lemma rows_step_by_id P d0 d r0 r :
  unique_ids d0 ->
  rows_step P (queue_users d0) (queue_users d) ->
  In r0 (queue_users d0) ->
  by_id (QueueUser.id r0) d = Some r ->
  row_step P r0 r.
Proof.
  unfold unique_ids, by_id, first, rows_step.
  generalize (queue_users d0) as rows0, (queue_users d) as rows.
  intros rows0 rows Hnd Hstep. revert Hnd.
  induction Hstep as [|a b rows0 rows Hab _ IH]; simpl; intros Hnd Hin Hfind;
    [contradiction|].
  inversion Hnd as [|? ? Ha Hnd']; subst.
  destruct Hab as [Hid Hab].
  destruct (QueueUser.id b =? QueueUser.id r0) eqn:E.
  - apply Z.eqb_eq in E. inversion Hfind; subst b.
    destruct Hin as [->|Hin]; [split; assumption|].
    exfalso. apply Ha. rewrite <- Hid, E. apply in_map. exact Hin.
  - apply Z.eqb_neq in E. destruct Hin as [->|Hin]; [congruence|].
    apply IH; assumption.
Qed.

(** A row that the relation cannot have moved is still there. *)
Lemma rows_step_keeps P rows0 rows r :
  rows_step P rows0 rows ->
  In r rows0 -> (forall r', ~ P r r') -> In r rows.
Proof.
  unfold rows_step. induction 1 as [|r0 r1 rows0 rows [_ Hr] _ IH]; simpl;
    intros Hin Hnot; [contradiction|].
  destruct Hin as [->|Hin].
  - destruct Hr as [->|Hr]; [left; reflexivity|]. destruct (Hnot _ Hr).
  - right. apply IH; assumption.
Qed.

Lemma set_status_twice s s' r :
  QueueUser.set_status s (QueueUser.set_status s' r) = QueueUser.set_status s r.
Proof. destruct r; reflexivity. Qed.

Lemma released_of_released now created t r :
  released now created (QueueUser.set_wait_time t (QueueUser.set_status ready r))
  = QueueUser.set_wait_time (Some (now - created)) (QueueUser.set_status ready r).
Proof. destruct r; reflexivity. Qed.

(* ===================================================================== *)
(** ** The selection of the release scheduler *)
(* ===================================================================== *)

Lemma insert_by_created_at_In u v l :
  In v (insert_by_created_at u l) <-> v = u \/ In v l.
Proof.
  induction l as [|x l IH]; simpl.
  - intuition.
  - destruct (QueueUser.created_at u <=? QueueUser.created_at x); simpl.
    + intuition.
    + rewrite IH. intuition.
Qed.

Lemma order_by_created_at_In v rows :
  In v (order_by_created_at rows) <-> In v rows.
Proof.
  induction rows as [|x rows IH]; simpl; [tauto|].
  rewrite insert_by_created_at_In, IH. intuition.
Qed.

Lemma insert_by_created_at_perm u l :
  Permutation (insert_by_created_at u l) (u :: l).
Proof.
  induction l as [|x l IH]; simpl; [reflexivity|].
  destruct (QueueUser.created_at u <=? QueueUser.created_at x); [reflexivity|].
  rewrite IH. apply perm_swap.
Qed.

Lemma order_by_created_at_perm rows :
  Permutation (order_by_created_at rows) rows.
Proof.
  induction rows as [|x rows IH]; simpl; [reflexivity|].
  rewrite insert_by_created_at_perm. constructor. exact IH.
Qed.






Lemma in_firstn {A} n (l : list A) x : In x (firstn n l) -> In x l.
Proof.
  intros H. rewrite <- (firstn_skipn n l). apply in_or_app. left. exact H.
Qed.




Lemma waiting_users_of_In queue d u :
  In u (waiting_users_of queue d) ->
  In u (queue_users d) /\ is_waiting_in (Queue.id queue) u = true.
Proof.
  unfold waiting_users_of. intros H. apply in_firstn in H.
  apply (proj1 (order_by_created_at_In _ _)) in H.
  apply (proj1 (filter_In _ _ _)) in H. exact H.
Qed.

Lemma is_waiting_in_status queue_id u :
  is_waiting_in queue_id u = true ->
  QueueUser.queue_id u = queue_id /\ QueueUser.status u = waiting
  /\ QueueUser.is_deleted u = false.
Proof.
  unfold is_waiting_in. intros H.
  apply andb_true_iff in H as [H Hd]. apply andb_true_iff in H as [Hq Hs].
  apply Z.eqb_eq in Hq. apply QueueUserStatus_eqb_eq in Hs.
  apply negb_true_iff in Hd. auto.
Qed.

Lemma waiting_users_of_length queue d :
  (length (waiting_users_of queue d) <= Z.to_nat (Queue.max_users_per_minute queue))%nat.
Proof. unfold waiting_users_of. apply firstn_le_length. Qed.

Lemma release_order_snoc us tokens u k :
  release_order us tokens ->
  release_order (us ++ [u]) (tokens ++ repeat (QueueUser.token u) k).
Proof.
  induction 1 as [|v j us tokens _ IH]; simpl.
  - rewrite <- (app_nil_r (repeat _ k)). constructor. constructor.
  - rewrite <- app_assoc. constructor. exact IH.
Qed.

(* ===================================================================== *)
(** ** The release scheduler *)
(* ===================================================================== *)

Section Scheduler.
Variable endpoint : list Event -> string -> CallbackData -> bool.
Variable store_fault : StoreQuery -> bool.

Lemma select_waiting_eq queue w :
  select_waiting store_fault queue w =
  if store_fault (LoadWaiting (Queue.id queue)) then (Raise OperationalError, w)
  else if Queue.max_users_per_minute queue <? 0 then (Raise DataError, w)
  else (Return (waiting_users_of queue (db w)), w).
Proof.
  unfold select_waiting, run_query, bind.
  destruct (store_fault _); [reflexivity|]. simpl.
  destruct (_ <? 0); reflexivity.
Qed.

(** The loop of [process_queue] over the selected participants: it never
    raises. *)
Lemma release_loop queue users w :
  exists w',
    for_each (fun user =>
        release_user endpoint user queue ;;
        modify (fun w => set_metrics (inc_USERS_RELEASED (metrics w)) w))
      users w = (Return tt, w')
    /\ List.map QueueUser.id (queue_users (db w'))
       = List.map QueueUser.id (queue_users (db w))
    /\ applications (db w') = applications (db w)
    /\ queues (db w') = queues (db w)
    /\ running w' = running w
    /\ USERS_EXPIRED (metrics w') = USERS_EXPIRED (metrics w)
    /\ QUEUE_SIZE (metrics w') = QUEUE_SIZE (metrics w)
    /\ clock w <= clock w'
    /\ USERS_RELEASED (metrics w')
       = USERS_RELEASED (metrics w) + Z.of_nat (length users)
    /\ (forall r, In r (queue_users (db w')) ->
          In (QueueUser.id r) (List.map QueueUser.id users) ->
          QueueUser.status r = ready)
    /\ exists tokens,
         posted_tokens (trace w') = posted_tokens (trace w) ++ tokens
         /\ release_order users tokens.
Proof.
  pose (I := fun (visited : list QueueUser.t) (wc : World) =>
    List.map QueueUser.id (queue_users (db wc))
       = List.map QueueUser.id (queue_users (db w))
    /\ applications (db wc) = applications (db w)
    /\ queues (db wc) = queues (db w)
    /\ running wc = running w
    /\ USERS_EXPIRED (metrics wc) = USERS_EXPIRED (metrics w)
    /\ QUEUE_SIZE (metrics wc) = QUEUE_SIZE (metrics w)
    /\ clock w <= clock wc
    /\ USERS_RELEASED (metrics wc)
       = USERS_RELEASED (metrics w) + Z.of_nat (length visited)
    /\ (forall r, In r (queue_users (db wc)) ->
          In (QueueUser.id r) (List.map QueueUser.id visited) ->
          QueueUser.status r = ready)
    /\ exists tokens,
         posted_tokens (trace wc) = posted_tokens (trace w) ++ tokens
         /\ release_order visited tokens).
  apply (for_each_invariant _ I users).
  - intros visited x wc Hx (Hrows & Ha & Hq & Hr & He & Hs & Hc & Hn & Hready & tokens & Ht & Ho).
    destruct (release_user_total endpoint x queue wc)
      as (w2 & k & E & R1 & R2 & R3 & R4 & R5 & R6 & R7 & R8 & R9 & R10).
    eexists. split.
    { unfold bind at 1. rewrite E. reflexivity. }
    unfold I. simpl.
    split; [|repeat split].
    + rewrite R1, update_by_id_ids; [exact Hrows|].
      intros r. destruct r; reflexivity.
    + congruence.
    + congruence.
    + congruence.
    + congruence.
    + congruence.
    + lia.
    + rewrite R5, Hn, length_app. simpl. lia.
    + intros r Hr' Hid. rewrite R1 in Hr'. unfold update_by_id in Hr'.
      apply in_map_iff in Hr' as (r1 & Hr1 & Hin1).
      destruct (QueueUser.id r1 =? QueueUser.id x) eqn:Eid.
      * subst r. reflexivity.
      * subst r1. apply Z.eqb_neq in Eid.
        rewrite map_app in Hid. apply in_app_or in Hid as [Hid|Hid].
        -- apply Hready; assumption.
        -- simpl in Hid. destruct Hid as [Hid|[]]. congruence.
    + exists (tokens ++ repeat (QueueUser.token x) k). split.
      * rewrite R9, Ht, <- app_assoc. reflexivity.
      * apply release_order_snoc. exact Ho.
  - unfold I.
    do 6 (split; [reflexivity|]). split; [lia|]. split; [simpl; lia|].
    split; [simpl; intros r _ []|].
    exists []. rewrite app_nil_r. split; [reflexivity|constructor].
Qed.

(** With unique keys, the loop writes only the rows the selected
    participants were loaded from. *)
Lemma release_loop_rows queue users w o w' :
  unique_ids (db w) ->
  (forall u, In u users ->
     In u (queue_users (db w)) /\ QueueUser.status u = waiting) ->
  for_each (fun user =>
      release_user endpoint user queue ;;
      modify (fun w => set_metrics (inc_USERS_RELEASED (metrics w)) w))
    users w = (o, w') ->
  rows_step (was_released (List.map QueueUser.id users))
    (queue_users (db w)) (queue_users (db w')).
Proof.
  intros Hnd Husers Hrun.
  set (ids := List.map QueueUser.id users).
  pose (I := fun (visited : list QueueUser.t) (wc : World) =>
    rows_step (was_released ids) (queue_users (db w)) (queue_users (db wc))).
  destruct (for_each_invariant
              (fun user =>
                 release_user endpoint user queue ;;
                 modify (fun w => set_metrics (inc_USERS_RELEASED (metrics w)) w))
              I users) with (s := w) as (w1 & E & H1).
  - intros visited x wc Hx Hrows.
    destruct (release_user_total endpoint x queue wc) as (w2 & k & E & R1 & _).
    eexists. split.
    { unfold bind at 1. rewrite E. reflexivity. }
    unfold I. simpl.
    destruct (Husers x Hx) as [Hin Hwait].
    rewrite R1.
    apply update_by_id_rows_step; [exact Hnd | exact Hin | | | exact Hrows].
    + intros r. destruct r; reflexivity.
    + intros r [->|(Hi & Hw & t & ->)].
      * split; [unfold ids; apply in_map; exact Hx|].
        split; [exact Hwait|]. eexists. reflexivity.
      * split; [exact Hi|]. split; [exact Hw|].
        eexists. apply released_of_released.
  - apply rows_step_refl.
  - rewrite Hrun in E. inversion E; subst. exact H1.
Qed.

(** One queue in one cycle: what it does whatever the store holds. *)
Lemma process_queue_total queue w :
  exists o w',
    process_queue endpoint store_fault queue w = (o, w')
    /\ List.map QueueUser.id (queue_users (db w'))
       = List.map QueueUser.id (queue_users (db w))
    /\ applications (db w') = applications (db w)
    /\ queues (db w') = queues (db w)
    /\ running w' = running w
    /\ USERS_EXPIRED (metrics w') = USERS_EXPIRED (metrics w)
    /\ clock w <= clock w'
    /\ match o with
       | Raise e =>
         w' = w
         /\ (store_fault (LoadWaiting (Queue.id queue)) = true
             \/ Queue.max_users_per_minute queue < 0)
       | Return _ =>
         store_fault (LoadWaiting (Queue.id queue)) = false
         /\ 0 <= Queue.max_users_per_minute queue
         /\ USERS_RELEASED (metrics w')
            = USERS_RELEASED (metrics w)
              + Z.of_nat (length (waiting_users_of queue (db w)))
         /\ QUEUE_SIZE (metrics w')
            = match waiting_users_of queue (db w) with
              | [] => QUEUE_SIZE (metrics w)
              | _ :: _ => <[Queue.id queue := count_waiting (Queue.id queue) (db w)]>
                            (QUEUE_SIZE (metrics w))
              end
         /\ (forall r, In r (queue_users (db w')) ->
               In (QueueUser.id r)
                  (List.map QueueUser.id (waiting_users_of queue (db w))) ->
               QueueUser.status r = ready)
         /\ exists tokens,
              posted_tokens (trace w') = posted_tokens (trace w) ++ tokens
              /\ release_order (waiting_users_of queue (db w)) tokens
       end.
Proof.
  unfold process_queue. unfold bind at 1.
  rewrite select_waiting_eq.
  destruct (store_fault (LoadWaiting (Queue.id queue))) eqn:Ef.
  { exists (Raise OperationalError), w.
    do 5 (split; [reflexivity|]). split; [reflexivity|]. split; [lia|]. auto. }
  destruct (Queue.max_users_per_minute queue <? 0) eqn:Eq.
  { apply Z.ltb_lt in Eq. exists (Raise DataError), w.
    do 5 (split; [reflexivity|]). split; [reflexivity|]. split; [lia|]. auto. }
  apply Z.ltb_ge in Eq.
  destruct (waiting_users_of queue (db w)) as [|u us] eqn:Esel.
  { exists (Return tt), w.
    do 5 (split; [reflexivity|]). split; [reflexivity|]. split; [lia|].
    split; [reflexivity|]. split; [exact Eq|]. split; [simpl; lia|].
    split; [reflexivity|]. split; [simpl; intros r _ []|].
    exists []. rewrite app_nil_r. split; [reflexivity|constructor]. }
  rewrite bind_gets, bind_modify.
  set (w1 := set_metrics _ w).
  destruct (release_loop queue (u :: us) w1)
    as (w' & E & Hrows & Ha & Hq & Hr & He & Hs & Hc & Hn & Hready & Htok).
  exists (Return tt), w'. split; [exact E|].
  repeat split; auto.
Qed.

(** One queue in one cycle, with unique keys: the rows it writes. *)
Lemma process_queue_rows queue w o w' :
  unique_ids (db w) ->
  process_queue endpoint store_fault queue w = (o, w') ->
  rows_step (was_released (List.map QueueUser.id (waiting_users_of queue (db w))))
    (queue_users (db w)) (queue_users (db w')).
Proof.
  intros Hnd. unfold process_queue. unfold bind at 1.
  rewrite select_waiting_eq.
  destruct (store_fault (LoadWaiting (Queue.id queue))).
  { intros E. inversion E; subst. apply rows_step_refl. }
  destruct (Queue.max_users_per_minute queue <? 0).
  { intros E. inversion E; subst. apply rows_step_refl. }
  destruct (waiting_users_of queue (db w)) as [|u us] eqn:Esel.
  { intros E. inversion E; subst. apply rows_step_refl. }
  rewrite bind_gets, bind_modify.
  intros E. apply release_loop_rows in E; [exact E | exact Hnd |].
  intros x Hx. rewrite <- Esel in Hx.
  apply waiting_users_of_In in Hx as [Hin Hw].
  apply is_waiting_in_status in Hw as (_ & Hw & _). auto.
Qed.

Lemma process_queue_run queue w :
  unique_ids (db w) ->
  exists o w',
    process_queue endpoint store_fault queue w = (o, w')
    /\ rows_step (was_released (List.map QueueUser.id (waiting_users_of queue (db w))))
         (queue_users (db w)) (queue_users (db w'))
    /\ applications (db w') = applications (db w)
    /\ queues (db w') = queues (db w)
    /\ running w' = running w
    /\ USERS_EXPIRED (metrics w') = USERS_EXPIRED (metrics w)
    /\ clock w <= clock w'
    /\ match o with
       | Raise e =>
         w' = w
         /\ (store_fault (LoadWaiting (Queue.id queue)) = true
             \/ Queue.max_users_per_minute queue < 0)
       | Return _ =>
         store_fault (LoadWaiting (Queue.id queue)) = false
         /\ 0 <= Queue.max_users_per_minute queue
         /\ USERS_RELEASED (metrics w')
            = USERS_RELEASED (metrics w)
              + Z.of_nat (length (waiting_users_of queue (db w)))
         /\ QUEUE_SIZE (metrics w')
            = match waiting_users_of queue (db w) with
              | [] => QUEUE_SIZE (metrics w)
              | _ :: _ => <[Queue.id queue := count_waiting (Queue.id queue) (db w)]>
                            (QUEUE_SIZE (metrics w))
              end
         /\ (forall r, In r (queue_users (db w')) ->
               In (QueueUser.id r)
                  (List.map QueueUser.id (waiting_users_of queue (db w))) ->
               QueueUser.status r = ready)
         /\ exists tokens,
              posted_tokens (trace w') = posted_tokens (trace w) ++ tokens
              /\ release_order (waiting_users_of queue (db w)) tokens
       end.
Proof.
  intros Hnd.
  destruct (process_queue_total queue w) as (o & w' & E & _ & H).
  exists o, w'. split; [exact E|].
  split; [exact (process_queue_rows _ _ _ _ Hnd E) | exact H].
Qed.

End Scheduler.

(** With unique keys, a key of the table before is found after a step. *)
Lemma rows_step_by_id_found P d0 d r0 :
  rows_step P (queue_users d0) (queue_users d) ->
  In r0 (queue_users d0) ->
  exists r, by_id (QueueUser.id r0) d = Some r
            /\ In r (queue_users d) /\ QueueUser.id r = QueueUser.id r0.
Proof.
  intros Hstep Hin. unfold by_id.
  destruct (first _ (queue_users d)) as [r|] eqn:E.
  - apply first_Some in E as [Hr Hid]. apply Z.eqb_eq in Hid. eauto.
  - exfalso. apply rows_step_ids in Hstep.
    apply (in_map QueueUser.id) in Hin. rewrite <- Hstep in Hin.
    apply in_map_iff in Hin as (r & Hid & Hr).
    pose proof (first_None _ _ E r Hr) as Hf. simpl in Hf.
    apply Z.eqb_neq in Hf. contradiction.
Qed.

(** The participants released between two states related by
    [was_released ids] carry keys of [ids]. *)
Lemma released_between_ids ids d0 d r0 :
  unique_ids d0 ->
  rows_step (was_released ids) (queue_users d0) (queue_users d) ->
  In r0 (released_between d0 d) ->
  In r0 (queue_users d0) /\ In (QueueUser.id r0) ids.
Proof.
  intros Hnd Hstep Hin. unfold released_between in Hin.
  apply filter_In in Hin as [Hin Hp]. split; [exact Hin|].
  apply andb_true_iff in Hp as [Hw Hr]. apply QueueUserStatus_eqb_eq in Hw.
  destruct (by_id (QueueUser.id r0) d) as [r|] eqn:E; [|discriminate].
  apply QueueUserStatus_eqb_eq in Hr.
  destruct (rows_step_by_id _ _ _ _ _ Hnd Hstep Hin E) as [_ [->|(Hi & _)]].
  - congruence.
  - exact Hi.
Qed.

Lemma released_between_length ids d0 d :
  unique_ids d0 ->
  rows_step (was_released ids) (queue_users d0) (queue_users d) ->
  (length (released_between d0 d) <= length ids)%nat.
Proof.
  intros Hnd Hstep.
  rewrite <- (length_map QueueUser.id (released_between d0 d)).
  apply NoDup_incl_length.
  - unfold released_between. apply NoDup_map_filter. exact Hnd.
  - intros i Hi. apply in_map_iff in Hi as (r0 & <- & Hr0).
    apply (released_between_ids ids d0 d r0 Hnd Hstep Hr0).
Qed.

(** After a normal return, the released participants are the selected ones. *)
Lemma released_between_selected endpoint store_fault queue w w' u :
  unique_ids (db w) ->
  process_queue endpoint store_fault queue w = (Return tt, w') ->
  In u (released_between (db w) (db w')) <-> In u (waiting_users_of queue (db w)).
Proof.
  intros Hnd Hrun.
  destruct (process_queue_run endpoint store_fault queue w Hnd)
    as (o & w1 & E & Hstep & _ & _ & _ & _ & _ & Ho).
  rewrite Hrun in E. inversion E; subst o w1. clear E.
  destruct Ho as (_ & _ & _ & _ & Hready & _).
  split.
  - intros Hin.
    destruct (released_between_ids _ _ _ _ Hnd Hstep Hin) as [Hu Hid].
    apply in_map_iff in Hid as (v & Hid & Hv).
    assert (v = u) as <-; [|exact Hv].
    apply (id_determines_row (queue_users (db w))); auto.
    apply waiting_users_of_In in Hv. apply Hv.
  - intros Hsel.
    destruct (waiting_users_of_In _ _ _ Hsel) as [Hu Hw].
    apply is_waiting_in_status in Hw as (_ & Hw & _).
    unfold released_between. apply filter_In. split; [exact Hu|].
    rewrite Hw. simpl.
    destruct (rows_step_by_id_found _ _ _ _ Hstep Hu) as (r & -> & Hr & Hid).
    apply QueueUserStatus_eqb_eq. apply Hready; [exact Hr|].
    rewrite Hid. apply in_map. exact Hsel.
Qed.

(* ===================================================================== *)
(** ** Quota, order and gauge of one queue in one cycle *)
(* ===================================================================== *)

(** Whether or not the processing of a queue ends normally, the
    participants it moves from waiting to ready are at most
    [max_users_per_minute]; after a normal return they are exactly the
    selected ones. *)
Lemma process_queue_quota endpoint store_fault queue w o w' :
  unique_ids (db w) ->
  0 <= Queue.max_users_per_minute queue ->
  process_queue endpoint store_fault queue w = (o, w') ->
  Z.of_nat (length (released_between (db w) (db w')))
    <= Queue.max_users_per_minute queue
  /\ (o = Return tt ->
      forall u, In u (released_between (db w) (db w'))
                <-> In u (waiting_users_of queue (db w))).
Proof.
  intros Hnd Hquota Hrun.
  destruct (process_queue_run endpoint store_fault queue w Hnd)
    as (o1 & w1 & E & Hstep & _).
  rewrite Hrun in E. inversion E; subst o1 w1. clear E.
  split.
  - pose proof (released_between_length _ _ _ Hnd Hstep) as Hlen.
    rewrite length_map in Hlen.
    pose proof (waiting_users_of_length queue (db w)). lia.
  - intros -> u. apply (released_between_selected endpoint store_fault); assumption.
Qed.



(** The gauge of a queue with one waiting participant and a quota of one
    reads 1 after the cycle, when nobody is waiting any more. *)
Lemma queue_size_is_read_before_release :
  ~ (forall endpoint store_fault queue w w',
       process_queue endpoint store_fault queue w = (Return tt, w') ->
       QUEUE_SIZE (metrics w') !! Queue.id queue
       = Some (count_waiting (Queue.id queue) (db w'))).
Proof.
  intros H.
  specialize (H Sample.always_200 Sample.healthy Sample.checkout
                (Sample.world [Sample.ann] 10) _ eq_refl).
  vm_compute in H. discriminate.
Qed.

(** C8 (as amended).  When the selection of a queue is not empty, the gauge
    of the queue is set to the number of its waiting participants counted
    before the releases of the cycle. *)
Theorem process_queue_sets_queue_size endpoint store_fault queue w w' :
  waiting_users_of queue (db w) <> [] ->
  process_queue endpoint store_fault queue w = (Return tt, w') ->
  QUEUE_SIZE (metrics w') !! Queue.id queue
  = Some (count_waiting (Queue.id queue) (db w)).
Proof.
  intros Hsel Hrun.
  destruct (process_queue_total endpoint store_fault queue w)
    as (o & w1 & E & _ & _ & _ & _ & _ & _ & Ho).
  rewrite Hrun in E. inversion E; subst o w1. clear E.
  destruct Ho as (_ & _ & _ & Hsize & _).
  rewrite Hsize. destruct (waiting_users_of queue (db w)); [congruence|].
  apply lookup_insert_eq.
Qed.

(* ===================================================================== *)
(** ** A whole cycle: all queues, the sweep, the loop of the worker *)
(* ===================================================================== *)

Section Cycle.
Variable endpoint : list Event -> string -> CallbackData -> bool.
Variable store_fault : StoreQuery -> bool.

Lemma process_queues_eq w :
  process_queues endpoint store_fault w =
  if store_fault LoadQueues then (Raise OperationalError, w)
  else for_each (process_queue endpoint store_fault) (active_queues (db w)) w.
Proof.
  unfold process_queues, try_finally, run_query, bind, close.
  destruct (store_fault LoadQueues); simpl; [reflexivity|].
  destruct (for_each _ _ w) as [[[]|e] w']; reflexivity.
Qed.

(** What no cycle of the scheduler touches. *)
Lemma process_queues_frame w o w' :
  process_queues endpoint store_fault w = (o, w') ->
  List.map QueueUser.id (queue_users (db w'))
    = List.map QueueUser.id (queue_users (db w))
  /\ applications (db w') = applications (db w)
  /\ queues (db w') = queues (db w)
  /\ running w' = running w
  /\ clock w <= clock w'.
Proof.
  rewrite process_queues_eq. destruct (store_fault LoadQueues).
  { intros E. inversion E; subst. repeat split; auto; lia. }
  apply (for_each_preserves _ (fun wc =>
    List.map QueueUser.id (queue_users (db wc))
      = List.map QueueUser.id (queue_users (db w))
    /\ applications (db wc) = applications (db w)
    /\ queues (db wc) = queues (db w)
    /\ running wc = running w
    /\ clock w <= clock wc)).
  - intros q wc o1 w1 _ (I1 & I2 & I3 & I4 & I5) E.
    destruct (process_queue_total endpoint store_fault q wc)
      as (o2 & w2 & E2 & R1 & R2 & R3 & R4 & _ & R5 & _).
    rewrite E in E2. inversion E2; subst o2 w2.
    repeat split; try congruence. lia.
  - repeat split; auto; lia.
Qed.

(** With unique keys, a cycle of the scheduler rewrites only rows that
    were waiting when the cycle began. *)
Lemma process_queues_rows w o w' :
  unique_ids (db w) ->
  process_queues endpoint store_fault w = (o, w') ->
  rows_step was_waiting (queue_users (db w)) (queue_users (db w')).
Proof.
  intros Hnd. rewrite process_queues_eq. destruct (store_fault LoadQueues).
  { intros E. inversion E; subst. apply rows_step_refl. }
  apply (for_each_preserves _ (fun wc =>
    rows_step was_waiting (queue_users (db w)) (queue_users (db wc)))).
  - intros q wc o1 w1 _ Hstep E.
    apply (rows_step_was_waiting_trans _ _ _ Hstep).
    eapply rows_step_impl; [|eapply process_queue_rows; [|exact E]].
    + intros r0 r _ (_ & Hw & _). exact Hw.
    + unfold unique_ids. rewrite (rows_step_ids _ _ _ Hstep). exact Hnd.
  - apply rows_step_refl.
Qed.

Lemma cleanup_expired_tokens_eq w :
  cleanup_expired_tokens store_fault w =
  if store_fault LoadExpired then (Raise OperationalError, w)
  else for_each (fun user =>
         modify (fun w => set_db (set_queue_users
           (update_by_id (QueueUser.id user) (QueueUser.set_status expired)
              (queue_users (db w))) (db w)) w) ;;
         modify (fun w => set_metrics (inc_USERS_EXPIRED (metrics w)) w))
       (List.filter (is_expired_at (clock w)) (queue_users (db w))) w.
Proof.
  unfold cleanup_expired_tokens, try_finally, run_query, bind, close.
  destruct (store_fault LoadExpired); simpl; [reflexivity|].
  destruct (for_each _ _ w) as [[[]|e] w']; reflexivity.
Qed.

(** The sweep never raises past the query, and marks what it selected. *)
Lemma cleanup_expired_tokens_total w :
  exists o w',
    cleanup_expired_tokens store_fault w = (o, w')
    /\ List.map QueueUser.id (queue_users (db w'))
       = List.map QueueUser.id (queue_users (db w))
    /\ running w' = running w
    /\ clock w' = clock w
    /\ trace w' = trace w
    /\ match o with
       | Raise _ => w' = w /\ store_fault LoadExpired = true
       | Return _ =>
         store_fault LoadExpired = false
         /\ forall r, In r (queue_users (db w')) ->
               In (QueueUser.id r)
                  (List.map QueueUser.id
                     (List.filter (is_expired_at (clock w)) (queue_users (db w)))) ->
               QueueUser.status r = expired
       end.
Proof.
  rewrite cleanup_expired_tokens_eq. destruct (store_fault LoadExpired).
  { exists (Raise OperationalError), w. repeat split; auto. }
  set (users := List.filter _ _).
  destruct (for_each_invariant (E := WorkerError)
    (fun user =>
       modify (fun w => set_db (set_queue_users
         (update_by_id (QueueUser.id user) (QueueUser.set_status expired)
            (queue_users (db w))) (db w)) w) ;;
       modify (fun w => set_metrics (inc_USERS_EXPIRED (metrics w)) w))
    (fun visited wc =>
       List.map QueueUser.id (queue_users (db wc))
         = List.map QueueUser.id (queue_users (db w))
       /\ running wc = running w /\ clock wc = clock w /\ trace wc = trace w
       /\ forall r, In r (queue_users (db wc)) ->
             In (QueueUser.id r) (List.map QueueUser.id visited) ->
             QueueUser.status r = expired)
    users) with (s := w) as (w' & E & H).
  - intros visited x wc _ (I1 & I2 & I3 & I4 & I5).
    eexists. split; [reflexivity|]. simpl.
    split; [|repeat split; auto].
    + rewrite update_by_id_ids; [exact I1|]. intros r. destruct r; reflexivity.
    + intros r Hr Hid. unfold update_by_id in Hr.
      apply in_map_iff in Hr as (r1 & Hr1 & Hin1).
      destruct (QueueUser.id r1 =? QueueUser.id x) eqn:Eid.
      * subst r. reflexivity.
      * subst r1. apply Z.eqb_neq in Eid.
        rewrite map_app in Hid. apply in_app_or in Hid as [Hid|Hid].
        -- apply I5; assumption.
        -- simpl in Hid. destruct Hid as [Hid|[]]. congruence.
  - repeat split; auto. simpl. intros r _ [].
  - exists (Return tt), w'. split; [exact E|].
    destruct H as (I1 & I2 & I3 & I4 & I5). repeat split; auto.
Qed.

(** With unique keys, the sweep rewrites only rows that were waiting. *)
Lemma cleanup_expired_tokens_rows w o w' :
  unique_ids (db w) ->
  cleanup_expired_tokens store_fault w = (o, w') ->
  rows_step was_expired (queue_users (db w)) (queue_users (db w')).
Proof.
  intros Hnd. rewrite cleanup_expired_tokens_eq. destruct (store_fault LoadExpired).
  { intros E. inversion E; subst. apply rows_step_refl. }
  set (users := List.filter _ _).
  assert (Husers : forall x, In x users ->
            In x (queue_users (db w)) /\ QueueUser.status x = waiting).
  { intros x Hx. apply filter_In in Hx as [Hin Hp]. split; [exact Hin|].
    unfold is_expired_at in Hp.
    apply andb_true_iff in Hp as [Hp _]. apply andb_true_iff in Hp as [Hp _].
    apply QueueUserStatus_eqb_eq. exact Hp. }
  clearbody users.
  intros Hrun.
  destruct (for_each_invariant (E := WorkerError)
    (fun user =>
       modify (fun w => set_db (set_queue_users
         (update_by_id (QueueUser.id user) (QueueUser.set_status expired)
            (queue_users (db w))) (db w)) w) ;;
       modify (fun w => set_metrics (inc_USERS_EXPIRED (metrics w)) w))
    (fun visited wc =>
       rows_step was_expired (queue_users (db w)) (queue_users (db wc)))
    users) with (s := w) as (w1 & E & H).
  - intros visited x wc Hx Hstep.
    eexists. split; [reflexivity|]. simpl.
    destruct (Husers x Hx) as [Hin Hwait].
    apply update_by_id_rows_step; [exact Hnd | exact Hin | | | exact Hstep].
    + intros r. destruct r; reflexivity.
    + intros r [->|[Hw ->]]; (split; [exact Hwait|]).
      * reflexivity.
      * apply set_status_twice.
  - apply rows_step_refl.
  - rewrite Hrun in E. inversion E; subst. exact H.
Qed.

(** One turn of the worker's loop always ends normally, a period later. *)
Lemma start_iteration_total w :
  exists w',
    start_iteration endpoint store_fault w = (Return tt, w')
    /\ running w' = running w
    /\ clock w + 60 <= clock w'
    /\ List.map QueueUser.id (queue_users (db w'))
       = List.map QueueUser.id (queue_users (db w)).
Proof.
  unfold start_iteration, try_except. unfold bind at 1.
  destruct (process_queues endpoint store_fault w) as [o1 w1] eqn:E1.
  destruct (process_queues_frame _ _ _ E1) as (P1 & _ & _ & P4 & P5).
  destruct o1 as [[]|e].
  - unfold bind at 1.
    destruct (cleanup_expired_tokens_total w1)
      as (o2 & w2 & E2 & C1 & C2 & C3 & _).
    rewrite E2. destruct o2 as [[]|e]; eexists; (split; [reflexivity|]); simpl;
      repeat split; try congruence; lia.
  - eexists. split; [reflexivity|]. simpl.
    repeat split; try congruence; lia.
Qed.

(** The worker's loop never ends on an error: every turn is taken. *)
Lemma start_loop_total fuel :
  forall w, running w = true ->
  exists w',
    start_loop endpoint store_fault fuel w = (Return tt, w')
    /\ running w' = true
    /\ clock w + 60 * Z.of_nat fuel <= clock w'.
Proof.
  induction fuel as [|fuel IH]; intros w Hrun.
  - exists w. repeat split; auto. simpl. lia.
  - simpl. rewrite bind_gets, Hrun. unfold bind at 1.
    destruct (start_iteration_total w) as (w1 & E1 & R1 & R2 & _).
    rewrite E1.
    destruct (IH w1) as (w2 & E2 & R3 & R4); [congruence|].
    exists w2. split; [exact E2|]. split; [exact R3|]. lia.
Qed.

End Cycle.

(* ===================================================================== *)
(** ** Failures within a cycle *)
(* ===================================================================== *)

(** When the store cannot load the participants of the first queue, the
    cycle ends there: a participant of the next queue, which a cycle with
    one handler per queue releases, is still waiting. *)
Lemma process_queues_abandons_remaining_queues :
  let w := Sample.world [Sample.ann; Sample.cyd] 10 in
  active_queues (db w) = [Sample.checkout; Sample.tickets; Sample.parked]
  /\ fst (process_queues Sample.always_200 Sample.checkout_down w)
     = Raise OperationalError
  /\ by_id 102 (db (snd (process_queues Sample.always_200 Sample.checkout_down w)))
     = Some Sample.cyd
  /\ fst (process_queues_isolated Sample.always_200 Sample.checkout_down w)
     = Return tt
  /\ by_id 102
       (db (snd (process_queues_isolated Sample.always_200 Sample.checkout_down w)))
     = Some (released 10 5 Sample.cyd).
Proof. vm_compute. repeat split. Qed.

(** C3 (as amended).  The loop of the worker never ends on a processing
    error: every turn returns normally, the worker stays running and a
    period passes.  Within a turn the queues share one handler: when the
    processing of a queue raises, the queues after it and the sweep of that
    turn are skipped, the worker sleeps for the period and goes on. *)
Theorem start_survives_processing_errors endpoint store_fault :
  (forall fuel w, exists w',
      start endpoint store_fault fuel w = (Return tt, w')
      /\ running w' = true
      /\ clock w + 60 * Z.of_nat fuel <= clock w')
  /\ (forall w before queue after e w1 w2,
        store_fault LoadQueues = false ->
        active_queues (db w) = before ++ queue :: after ->
        for_each (process_queue endpoint store_fault) before w = (Return tt, w1) ->
        process_queue endpoint store_fault queue w1 = (Raise e, w2) ->
        process_queues endpoint store_fault w = (Raise e, w2)
        /\ start_iteration endpoint store_fault w
           = (Return tt, advance 60 (emit (Sleep 60) w2))).
Proof.
  split.
  - intros fuel w. unfold start. rewrite bind_modify.
    destruct (start_loop_total endpoint store_fault fuel (set_running true w))
      as (w' & E & R1 & R2); [reflexivity|].
    exists w'. auto.
  - intros w before queue after e w1 w2 Hload Hqueues Hbefore Hraise.
    assert (Hcycle : process_queues endpoint store_fault w = (Raise e, w2)).
    { rewrite process_queues_eq, Hload, Hqueues.
      apply (for_each_raise _ _ _ _ _ w1); assumption. }
    split; [exact Hcycle|].
    unfold start_iteration, try_except. unfold bind at 1.
    rewrite Hcycle. reflexivity.
Qed.

(* ===================================================================== *)
(** ** Leaving [waiting] *)
(* ===================================================================== *)



(* ===================================================================== *)
(** ** Terminal states *)
(* ===================================================================== *)

(** A participant that is ready still resolves by its token, and a
    cancellation presenting that token succeeds and rejects it. *)
Lemma cancel_queue_rejects_ready_participant :
  ~ (forall token d u,
       by_token token d = Some u ->
       QueueUser.status u <> waiting ->
       exists detail,
         cancel_queue token d = (Raise (HTTPException 404 detail), d)).
Proof.
  intros H.
  destruct (H "tok-dee"%string (Sample.store [Sample.dee]) Sample.dee eq_refl)
    as (detail & E).
  - discriminate.
  - vm_compute in E. discriminate.
Qed.

Lemma add_queue_user_keeps u d o d' r :
  add_queue_user u d = (o, d') -> In r (queue_users d) -> In r (queue_users d').
Proof.
  unfold add_queue_user. destruct (existsb _ (queue_users d)); intros E Hin;
    inversion E; subst; simpl; [exact Hin|].
  apply in_or_app. left. exact Hin.
Qed.

(** C1 (as amended).  With unique keys, a participant in a terminal state
    is left as it is by a cycle of the release scheduler, by a sweep, by a
    join and by a status lookup.  A cancellation presenting a token that
    resolves to no participant (unknown, or already cancelled) fails with a
    404 and writes nothing; a cancellation presenting the token of a
    participant that is not deleted succeeds whatever the state of the
    participant, which becomes rejected and deleted, and leaves the other
    participants as they are. *)
Theorem terminal_states_and_cancellation endpoint store_fault w :
  unique_ids (db w) ->
  (forall r, In r (queue_users (db w)) -> terminal (QueueUser.status r) = true ->
     (forall o w', process_queues endpoint store_fault w = (o, w') ->
                   In r (queue_users (db w')))
     /\ (forall o w', cleanup_expired_tokens store_fault w = (o, w') ->
                      In r (queue_users (db w')))
     /\ (forall jq key mode now tok uid o d',
           join_queue jq key mode now tok uid (db w) = (o, d') ->
           In r (queue_users d'))
     /\ (forall token o d', queue_status token (db w) = (o, d') -> d' = db w))
  /\ (forall token, by_token token (db w) = None ->
        cancel_queue token (db w)
        = (Raise (HTTPException 404 "Token not found"), db w))
  /\ (forall token u, by_token token (db w) = Some u ->
        exists d',
          cancel_queue token (db w) = (Return tt, d')
          /\ by_id (QueueUser.id u) d'
             = Some (QueueUser.set_is_deleted true (QueueUser.set_status rejected u))
          /\ forall r, In r (queue_users (db w)) ->
                       QueueUser.id r <> QueueUser.id u ->
                       In r (queue_users d')).
Proof.
  intros Hnd. split; [|split].
  - intros r Hin Hterm.
    assert (Hnw : QueueUser.status r <> waiting).
    { intros Hw. rewrite Hw in Hterm. discriminate. }
    split; [|split; [|split]].
    + intros o w' Hrun.
      apply (rows_step_keeps was_waiting (queue_users (db w)));
        [|exact Hin | intros r' Hw; exact (Hnw Hw)].
      apply (process_queues_rows endpoint store_fault w o w' Hnd Hrun).
    + intros o w' Hrun.
      apply (rows_step_keeps was_waiting (queue_users (db w)));
        [|exact Hin | intros r' Hw; exact (Hnw Hw)].
      eapply rows_step_impl;
        [|apply (cleanup_expired_tokens_rows store_fault w o w' Hnd Hrun)].
      intros r0 r1 _ [Hw _]. exact Hw.
    + intros jq key mode now tok uid o d' Hrun.
      destruct (join_queue_cases _ _ _ _ _ _ _ _ Hrun)
        as [(detail & E & _) | [(detail & a & E & _) | (a & q & _ & _ & _ & E)]].
      * inversion E; subst. exact Hin.
      * inversion E; subst. exact Hin.
      * destruct (String.eqb mode "simulation").
        -- inversion E; subst. exact Hin.
        -- cbv beta zeta in E. unfold bind in E.
           destruct (add_queue_user _ (db w)) as [[[]|e] d1] eqn:Eadd;
             inversion E; subst; eapply add_queue_user_keeps; eauto.
    + intros token o d' Hrun. rewrite queue_status_eq in Hrun.
      destruct (by_token token (db w)); inversion Hrun; reflexivity.
  - intros token Hnone. rewrite cancel_queue_eq, Hnone. reflexivity.
  - intros token u Hsome. rewrite cancel_queue_eq, Hsome.
    eexists. split; [reflexivity|].
    unfold by_token in Hsome. apply first_Some in Hsome as [Hu _].
    split.
    + unfold by_id, first. simpl.
      revert Hnd Hu. unfold unique_ids.
      generalize (queue_users (db w)) as rows.
      induction rows as [|x rows IH]; simpl; intros Hnd Hu; [contradiction|].
      inversion Hnd as [|? ? Hx Hnd']; subst.
      destruct Hu as [->|Hu].
      * rewrite Z.eqb_refl. simpl. rewrite Z.eqb_refl. reflexivity.
      * destruct (QueueUser.id x =? QueueUser.id u) eqn:E.
        -- apply Z.eqb_eq in E. exfalso. apply Hx. rewrite E.
           apply in_map. exact Hu.
        -- simpl. rewrite E. apply IH; assumption.
    + intros r Hin Hne. simpl. unfold update_by_id.
      apply in_map_iff. exists r. split; [|exact Hin].
      apply Z.eqb_neq in Hne. rewrite Hne. reflexivity.
Qed.

(* ===================================================================== *)
(** ** The rate limiter *)
(* ===================================================================== *)

Module RateLimiterFacts.
Import RateLimiter.

Lemma client_requests_insert c c' l rl :
  client_requests c' (set_requests (<[c := l]> (requests rl)) rl)
  = if decide (c = c') then l else client_requests c' rl.
Proof.
  unfold client_requests, set_requests. simpl.
  rewrite lookup_insert. destruct (decide (c = c')); reflexivity.
Qed.

(** Pruning at a later time forgets an earlier pruning. *)
Lemma filter_window_later (size now later : Z) (l : list Z) :
  now <= later ->
  List.filter (fun req_time => later - req_time <? size)
    (List.filter (fun req_time => now - req_time <? size) l)
  = List.filter (fun req_time => later - req_time <? size) l.
Proof.
  intros Hle. induction l as [|x l IH]; simpl; [reflexivity|].
  destruct (now - x <? size) eqn:E1; simpl.
  - destruct (later - x <? size); [rewrite IH|]; auto.
  - rewrite IH. destruct (later - x <? size) eqn:E2; [|reflexivity].
    apply Z.ltb_lt in E2. apply Z.ltb_ge in E1. lia.
Qed.

(** What a denied call leaves behind. *)
Lemma is_allowed_denied now c rl rl' :
  is_allowed now c rl = (false, rl') ->
  rl' = set_requests (<[c := in_window now c rl]> (requests rl)) rl
  /\ max_requests rl <= Z.of_nat (length (in_window now c rl)).
Proof.
  unfold is_allowed. destruct (_ <? max_requests rl) eqn:E; intros H;
    inversion H; subst. split; [reflexivity|]. apply Z.ltb_ge. exact E.
Qed.

(** The window of a client holds only times of calls answered [True]. *)
Lemma serve_window calls :
  forall rl answers rl' c (known : list Z),
    serve calls rl = (answers, rl') ->
    (forall t, In t (client_requests c rl) -> In t known) ->
    forall t, In t (client_requests c rl') ->
              In t (known ++ allowed_times c calls answers).
Proof.
  induction calls as [|[now c0] calls IH]; simpl;
    intros rl answers rl' c known Hrun Hknown t Ht.
  - inversion Hrun; subst. rewrite app_nil_r. auto.
  - destruct (is_allowed now c0 rl) as [answer rl1] eqn:E1.
    destruct (serve calls rl1) as [answers' rl2] eqn:E2.
    inversion Hrun; subst answers rl2. clear Hrun.
    rewrite app_assoc.
    apply (IH rl1 answers' rl' c _ E2); [|exact Ht].
    clear IH E2 Ht t. intros t Ht.
    unfold is_allowed in E1.
    destruct (_ <? max_requests rl); inversion E1; subst answer rl1; clear E1;
      rewrite client_requests_insert in Ht;
      destruct (decide (c0 = c)) as [->|Hne].
    + rewrite String.eqb_refl. simpl.
      apply in_app_or in Ht as [Ht|Ht].
      * apply in_or_app. left. apply Hknown.
        unfold in_window in Ht. apply filter_In in Ht. apply Ht.
      * apply in_or_app. right. exact Ht.
    + apply in_or_app. left. auto.
    + apply in_or_app. left. apply Hknown.
      unfold in_window in Ht. apply filter_In in Ht. apply Ht.
    + apply in_or_app. left. auto.
Qed.
End RateLimiterFacts.

(** C10.  A call of [is_allowed] that answers [False] records nothing: the
    window of the client is its old window pruned, without the time of the
    call; the windows of the other clients are untouched; the remaining
    count read at the time of the call or later is what it would have been
    without the call; and, from a fresh limiter, a window only ever holds
    times of calls that were answered [True]. *)
Theorem is_allowed_denied_records_nothing now c rl rl' :
  RateLimiter.is_allowed now c rl = (false, rl') ->
  RateLimiter.client_requests c rl' = RateLimiter.in_window now c rl
  /\ (forall t, In t (RateLimiter.client_requests c rl') ->
                In t (RateLimiter.client_requests c rl))
  /\ (forall c', c' <> c ->
        RateLimiter.client_requests c' rl' = RateLimiter.client_requests c' rl)
  /\ (forall later, now <= later ->
        fst (RateLimiter.get_remaining_requests later c rl')
        = fst (RateLimiter.get_remaining_requests later c rl))
  /\ (forall limit calls answers rl2 c' t,
        RateLimiter.serve calls (RateLimiter.init limit) = (answers, rl2) ->
        In t (RateLimiter.client_requests c' rl2) ->
        In t (RateLimiter.allowed_times c' calls answers)).
Proof.
  intros Hdenied.
  apply RateLimiterFacts.is_allowed_denied in Hdenied as [-> Hfull].
  split; [|split; [|split; [|split]]].
  - rewrite RateLimiterFacts.client_requests_insert.
    destruct (decide (c = c)); [reflexivity | congruence].
  - intros t. rewrite RateLimiterFacts.client_requests_insert.
    destruct (decide (c = c)); [|congruence].
    unfold RateLimiter.in_window. intros Ht. apply filter_In in Ht. apply Ht.
  - intros c' Hne. rewrite RateLimiterFacts.client_requests_insert.
    destruct (decide (c = c')); [congruence | reflexivity].
  - intros later Hle. unfold RateLimiter.get_remaining_requests. simpl.
    unfold RateLimiter.in_window at 1 3.
    rewrite RateLimiterFacts.client_requests_insert.
    destruct (decide (c = c)); [|congruence].
    simpl. unfold RateLimiter.in_window.
    rewrite RateLimiterFacts.filter_window_later by exact Hle. reflexivity.
  - intros limit calls answers rl2 c' t Hrun Ht.
    apply (RateLimiterFacts.serve_window calls (RateLimiter.init limit)
             answers rl2 c' [] Hrun); [|exact Ht].
    intros t' Ht'. unfold RateLimiter.client_requests, RateLimiter.init in Ht'.
    simpl in Ht'. rewrite lookup_empty in Ht'. destruct Ht'.
Qed.


(* ===================================================================== *)
(** ** The quota of every queue in a whole cycle *)
(* ===================================================================== *)

Lemma queue_id_determines_queue qs a b :
  List.NoDup (List.map Queue.id qs) ->
  In a qs -> In b qs -> Queue.id a = Queue.id b -> a = b.
Proof.
  induction qs as [|x qs IH]; simpl; intros Hnd Ha Hb Hid; [contradiction|].
  inversion Hnd as [|? ? Hx Hnd']; subst.
  destruct Ha as [->|Ha], Hb as [->|Hb]; auto.
  - exfalso. apply Hx. rewrite Hid. apply in_map. exact Hb.
  - exfalso. apply Hx. rewrite <- Hid. apply in_map. exact Ha.
Qed.

(** The rows of a queue that has not been visited yet are as they were, so
    the query of that queue selects what it would have selected at the
    start of the cycle. *)
Lemma waiting_users_of_unvisited d0 visited queue d :
  (forall q, In q visited -> Queue.id q <> Queue.id queue) ->
  rows_step (released_by d0 visited) (queue_users d0) (queue_users d) ->
  waiting_users_of queue d = waiting_users_of queue d0.
Proof.
  intros Hfresh Hstep. unfold waiting_users_of. do 2 f_equal.
  unfold rows_step in Hstep.
  induction Hstep as [|r0 r rows0 rows [_ Hr] _ IH]; simpl; [reflexivity|].
  rewrite IH. destruct Hr as [->|(q & Hq & Hqid & _ & _ & t & ->)]; [reflexivity|].
  assert (Hne : (QueueUser.queue_id r0 =? Queue.id queue) = false).
  { apply Z.eqb_neq. rewrite Hqid. apply Hfresh. exact Hq. }
  unfold is_waiting_in. destruct r0; simpl in *. rewrite Hne. reflexivity.
Qed.

(** A cycle so far, followed by the processing of one more queue. *)
Lemma released_by_snoc d0 visited queue rows0 rows1 rows2 :
  rows_step (released_by d0 visited) rows0 rows1 ->
  rows_step (fun r1 r2 =>
      QueueUser.queue_id r1 = Queue.id queue
      /\ was_released (List.map QueueUser.id (waiting_users_of queue d0)) r1 r2)
    rows1 rows2 ->
  rows_step (released_by d0 (visited ++ [queue])) rows0 rows2.
Proof.
  unfold rows_step. intros H01. revert rows2.
  induction H01 as [|r0 r1 rows0 rows1 [Hid1 H1] _ IH]; intros rows2 H12;
    inversion H12 as [|? r2 ? rows2' [Hid2 H2] H12']; subst; constructor.
  - split; [congruence|].
    destruct H1 as [->|(q & Hq & Hqid & Hrel)].
    + destruct H2 as [->|[Hqid Hrel]]; [left; reflexivity|].
      right. exists queue. split; [apply in_or_app; right; left; reflexivity|].
      auto.
    + destruct H2 as [->|[_ (_ & Hw & _)]].
      * right. exists q. split; [apply in_or_app; left; exact Hq|]. auto.
      * destruct Hrel as (_ & _ & t & ->). destruct r0; discriminate.
  - apply IH. exact H12'.
Qed.

Section CycleQuota.
Variable endpoint : list Event -> string -> CallbackData -> bool.
Variable store_fault : StoreQuery -> bool.

(** The loop of [process_queues], from any point of the cycle on. *)
Lemma process_queues_loop_rows w0 rest :
  forall visited wc o w',
    List.NoDup (List.map Queue.id (visited ++ rest)) ->
    unique_ids (db w0) ->
    rows_step (released_by (db w0) visited)
      (queue_users (db w0)) (queue_users (db wc)) ->
    for_each (process_queue endpoint store_fault) rest wc = (o, w') ->
    rows_step (released_by (db w0) (visited ++ rest))
      (queue_users (db w0)) (queue_users (db w')).
Proof.
  induction rest as [|x rest IH]; intros visited wc o w' Hqs Hnd Hinv Hrun.
  - inversion Hrun; subst. rewrite app_nil_r. exact Hinv.
  - simpl in Hrun. unfold bind in Hrun.
    destruct (process_queue endpoint store_fault x wc) as [[[]|e] w1] eqn:E1.
    + replace (visited ++ x :: rest) with ((visited ++ [x]) ++ rest) in *
        by (rewrite <- app_assoc; reflexivity).
      apply (IH (visited ++ [x]) w1 o w' Hqs Hnd); [|exact Hrun].
      assert (Hndc : unique_ids (db wc)).
      { unfold unique_ids. rewrite (rows_step_ids _ _ _ Hinv). exact Hnd. }
      assert (Hsel : waiting_users_of x (db wc) = waiting_users_of x (db w0)).
      { apply (waiting_users_of_unvisited (db w0) visited); [|exact Hinv].
        intros q Hq Hid.
        rewrite <- app_assoc, map_app in Hqs. simpl in Hqs.
        apply NoDup_remove_2 in Hqs. apply Hqs.
        apply in_or_app. left. rewrite <- Hid. apply in_map. exact Hq. }
      apply (released_by_snoc _ _ _ _ (queue_users (db wc))); [exact Hinv|].
      pose proof (process_queue_rows endpoint store_fault x wc _ _ Hndc E1) as Hstep.
      rewrite Hsel in Hstep.
      eapply rows_step_impl; [|exact Hstep].
      intros r1 r2 Hin1 Hrel. split; [|exact Hrel].
      destruct Hrel as (Hid & _).
      apply in_map_iff in Hid as (u & Hid & Hu).
      rewrite <- Hsel in Hu. apply waiting_users_of_In in Hu as [Hu Hw].
      apply is_waiting_in_status in Hw as (Hq & _).
      assert (u = r1) as <-; [|exact Hq].
      apply (id_determines_row (queue_users (db wc))); auto.
    + inversion Hrun; subst o w'.
      destruct (process_queue_total endpoint store_fault x wc)
        as (o2 & w2 & E2 & _ & _ & _ & _ & _ & _ & Ho).
      rewrite E1 in E2. inversion E2; subst o2 w2. destruct Ho as [-> _].
      eapply rows_step_impl; [|exact Hinv].
      intros r0 r _ (q & Hq & H). exists q.
      split; [apply in_or_app; left; exact Hq | exact H].
Qed.

(** With unique keys, whatever a cycle has moved from waiting to ready was
    selected, in the store as the cycle found it, by the query of its own
    queue, and that queue was active. *)
Lemma process_queues_released_by w o w' :
  unique_ids (db w) -> unique_queue_ids (db w) ->
  process_queues endpoint store_fault w = (o, w') ->
  rows_step (released_by (db w) (active_queues (db w)))
    (queue_users (db w)) (queue_users (db w')).
Proof.
  intros Hnd Hqs. rewrite process_queues_eq. destruct (store_fault LoadQueues).
  - intros E. inversion E; subst. apply rows_step_refl.
  - intros Hrun.
    apply (process_queues_loop_rows w (active_queues (db w)) [] w o w');
      [|exact Hnd | apply rows_step_refl | exact Hrun].
    simpl. unfold active_queues. apply NoDup_map_filter. exact Hqs.
Qed.

(** C6.  With unique keys, for every queue of the store, the participants
    of the queue that one cycle of the release scheduler moves from waiting
    to ready are at most the [max_users_per_minute] of the queue, however
    many are waiting and however the cycle ends. *)
Theorem process_queues_respects_quota w o w' queue :
  unique_ids (db w) -> unique_queue_ids (db w) ->
  In queue (queues (db w)) ->
  0 <= Queue.max_users_per_minute queue ->
  process_queues endpoint store_fault w = (o, w') ->
  Z.of_nat (length (released_in (Queue.id queue) (db w) (db w')))
    <= Queue.max_users_per_minute queue.
Proof.
  intros Hnd Hqs Hqueue Hquota Hrun.
  pose proof (process_queues_released_by w o w' Hnd Hqs Hrun) as Hstep.
  assert (Hlen : (length (released_in (Queue.id queue) (db w) (db w'))
                  <= length (waiting_users_of queue (db w)))%nat).
  { rewrite <- (length_map QueueUser.id (released_in _ _ _)).
    rewrite <- (length_map QueueUser.id (waiting_users_of _ _)).
    apply NoDup_incl_length.
    - unfold released_in, released_between.
      do 2 apply NoDup_map_filter. exact Hnd.
    - intros i Hi. apply in_map_iff in Hi as (r0 & <- & Hr0).
      unfold released_in in Hr0. apply filter_In in Hr0 as [Hr0 Hq].
      apply Z.eqb_eq in Hq.
      unfold released_between in Hr0. apply filter_In in Hr0 as [Hin Hp].
      apply andb_true_iff in Hp as [Hw Hr]. apply QueueUserStatus_eqb_eq in Hw.
      destruct (by_id (QueueUser.id r0) (db w')) as [r|] eqn:E; [|discriminate].
      apply QueueUserStatus_eqb_eq in Hr.
      destruct (rows_step_by_id _ _ _ _ _ Hnd Hstep Hin E)
        as [_ [->|(q & Hact & Hqid & Hids & _)]]; [congruence|].
      assert (q = queue) as ->; [|exact Hids].
      apply (queue_id_determines_queue (queues (db w))); auto; [|congruence].
      unfold active_queues in Hact. apply filter_In in Hact. apply Hact. }
  pose proof (waiting_users_of_length queue (db w)). lia.
Qed.

End CycleQuota.

(** Ten per cycle out of twenty-five: the ten oldest after one cycle, twenty
    after two. *)
Example two_cycles_of_the_turnstile :
  let w1 := snd (process_queues Sample.always_200 Sample.healthy
                   (Sample.turnstile_world (Sample.crowd 25) 100)) in
  let w2 := snd (process_queues Sample.always_200 Sample.healthy w1) in
  let ready_at w :=
    List.map QueueUser.created_at
      (List.filter (fun u => QueueUserStatus_eqb (QueueUser.status u) ready)
                   (queue_users (db w))) in
  ready_at w1 = [9; 8; 7; 6; 5; 4; 3; 2; 1; 0]
  /\ length (ready_at w2) = 20%nat
  /\ USERS_RELEASED (metrics w2) = 20.
Proof. vm_compute. repeat split. Qed.

(* ===================================================================== *)
(** ** More on the rate limiter *)
(* ===================================================================== *)

Lemma filter_length_le {A} (p : A -> bool) (l : list A) :
  (length (List.filter p l) <= length l)%nat.
Proof.
  induction l as [|x l IH]; simpl; [lia|]. destruct (p x); simpl; lia.
Qed.

Lemma is_allowed_fields now c rl :
  RateLimiter.max_requests (snd (RateLimiter.is_allowed now c rl))
    = RateLimiter.max_requests rl
  /\ RateLimiter.window_size (snd (RateLimiter.is_allowed now c rl))
    = RateLimiter.window_size rl.
Proof.
  unfold RateLimiter.is_allowed. destruct (_ <? _); simpl; auto.
Qed.

(** What a call leaves in the window of each client. *)
Lemma is_allowed_client_requests now c rl c' :
  RateLimiter.client_requests c' (snd (RateLimiter.is_allowed now c rl))
  = if decide (c = c') then
      RateLimiter.in_window now c rl
      ++ (if fst (RateLimiter.is_allowed now c rl) then [now] else [])
    else RateLimiter.client_requests c' rl.
Proof.
  unfold RateLimiter.is_allowed. destruct (_ <? _); simpl;
    rewrite RateLimiterFacts.client_requests_insert;
    destruct (decide (c = c')); auto. rewrite app_nil_r. reflexivity.
Qed.

(** The answer of a call is read off the window of its client alone. *)
Lemma is_allowed_answer now c rl :
  fst (RateLimiter.is_allowed now c rl)
  = (Z.of_nat (length (RateLimiter.in_window now c rl))
     <? RateLimiter.max_requests rl).
Proof. unfold RateLimiter.is_allowed. destruct (_ <? _); reflexivity. Qed.

Lemma get_remaining_requests_value now c rl :
  fst (RateLimiter.get_remaining_requests now c rl)
  = Z.max 0 (RateLimiter.max_requests rl
             - Z.of_nat (length (RateLimiter.in_window now c rl))).
Proof. reflexivity. Qed.

Lemma get_remaining_requests_fields now c rl :
  RateLimiter.max_requests (snd (RateLimiter.get_remaining_requests now c rl))
    = RateLimiter.max_requests rl
  /\ RateLimiter.window_size (snd (RateLimiter.get_remaining_requests now c rl))
    = RateLimiter.window_size rl.
Proof. split; reflexivity. Qed.

(** X1.  Clients do not share capacity: a call of one client changes
    neither the answer nor the remaining count that any other client gets
    afterwards. *)
Theorem is_allowed_clients_are_independent now c rl later c' :
  c' <> c ->
  fst (RateLimiter.is_allowed later c' (snd (RateLimiter.is_allowed now c rl)))
  = fst (RateLimiter.is_allowed later c' rl)
  /\ fst (RateLimiter.get_remaining_requests later c'
            (snd (RateLimiter.is_allowed now c rl)))
     = fst (RateLimiter.get_remaining_requests later c' rl).
Proof.
  intros Hne.
  assert (Hw : RateLimiter.in_window later c' (snd (RateLimiter.is_allowed now c rl))
               = RateLimiter.in_window later c' rl).
  { unfold RateLimiter.in_window.
    rewrite is_allowed_client_requests.
    destruct (is_allowed_fields now c rl) as [_ ->].
    destruct (decide (c = c')); [congruence | reflexivity]. }
  split.
  - rewrite !is_allowed_answer, Hw.
    destruct (is_allowed_fields now c rl) as [-> _]. reflexivity.
  - rewrite !get_remaining_requests_value, Hw.
    destruct (is_allowed_fields now c rl) as [-> _]. reflexivity.
Qed.

(** X2.  With a positive window, a call that is answered [True] uses up
    exactly one request: unless the client was already beyond the ceiling,
    the remaining count read at the same time is one less than before. *)
Theorem is_allowed_consumes_one now c rl rl' :
  0 < RateLimiter.window_size rl ->
  RateLimiter.is_allowed now c rl = (true, rl') ->
  fst (RateLimiter.get_remaining_requests now c rl')
  = fst (RateLimiter.get_remaining_requests now c rl) - 1
  /\ 0 <= fst (RateLimiter.get_remaining_requests now c rl').
Proof.
  intros Hsize Hrun.
  pose proof (is_allowed_answer now c rl) as Hans.
  pose proof (is_allowed_client_requests now c rl c) as Hreq.
  pose proof (is_allowed_fields now c rl) as [Hmax Hwin].
  rewrite Hrun in Hans, Hreq, Hmax, Hwin. simpl in Hans, Hreq, Hmax, Hwin.
  symmetry in Hans. apply Z.ltb_lt in Hans.
  destruct (decide (c = c)); [|congruence].
  assert (Hkept : RateLimiter.in_window now c rl'
                  = RateLimiter.in_window now c rl ++ [now]).
  { unfold RateLimiter.in_window at 1. rewrite Hreq, Hwin, List.filter_app.
    unfold RateLimiter.in_window.
    rewrite (RateLimiterFacts.filter_window_later _ now now) by lia.
    simpl. replace (now - now <? RateLimiter.window_size rl) with true;
      [reflexivity|]. symmetry. apply Z.ltb_lt. lia. }
  rewrite !get_remaining_requests_value, Hkept, Hmax, length_app. simpl. lia.
Qed.

(** X3.  Reading the remaining count records nothing: the answer and the
    remaining count that the client gets at the same time or later are what
    they would have been without the reading. *)
Theorem get_remaining_requests_records_nothing now c rl later :
  now <= later ->
  fst (RateLimiter.is_allowed later c
         (snd (RateLimiter.get_remaining_requests now c rl)))
  = fst (RateLimiter.is_allowed later c rl)
  /\ fst (RateLimiter.get_remaining_requests later c
            (snd (RateLimiter.get_remaining_requests now c rl)))
     = fst (RateLimiter.get_remaining_requests later c rl).
Proof.
  intros Hle.
  assert (Hw : RateLimiter.in_window later c
                 (snd (RateLimiter.get_remaining_requests now c rl))
               = RateLimiter.in_window later c rl).
  { unfold RateLimiter.get_remaining_requests. simpl.
    unfold RateLimiter.in_window at 1.
    rewrite RateLimiterFacts.client_requests_insert.
    destruct (decide (c = c)); [|congruence]. simpl.
    unfold RateLimiter.in_window.
    apply RateLimiterFacts.filter_window_later. exact Hle. }
  split.
  - rewrite !is_allowed_answer, Hw. reflexivity.
  - rewrite !get_remaining_requests_value, Hw. reflexivity.
Qed.

(** X4.  With a positive ceiling, a client none of whose recorded requests
    is still inside the window is admitted; in particular a client that was
    never seen, and a refused client once a whole window has passed since
    its last admitted request. *)
Theorem is_allowed_after_quiet_window now c rl :
  0 < RateLimiter.max_requests rl ->
  (forall t, In t (RateLimiter.client_requests c rl) ->
             RateLimiter.window_size rl <= now - t) ->
  fst (RateLimiter.is_allowed now c rl) = true
  /\ RateLimiter.client_requests c (snd (RateLimiter.is_allowed now c rl)) = [now].
Proof.
  intros Hmax Hquiet.
  assert (Hempty : RateLimiter.in_window now c rl = []).
  { unfold RateLimiter.in_window.
    induction (RateLimiter.client_requests c rl) as [|x l IH]; simpl; [reflexivity|].
    replace (now - x <? RateLimiter.window_size rl) with false.
    - apply IH. intros t Ht. apply Hquiet. right. exact Ht.
    - symmetry. apply Z.ltb_ge. apply Hquiet. left. reflexivity. }
  assert (Hans : fst (RateLimiter.is_allowed now c rl) = true).
  { rewrite is_allowed_answer, Hempty. simpl. apply Z.ltb_lt. exact Hmax. }
  split; [exact Hans|].
  rewrite is_allowed_client_requests, Hans, Hempty.
  destruct (decide (c = c)); [reflexivity | congruence].
Qed.

(** The windows while a sequence of calls is served, for calls in the
    order of their times: the window of a client agrees, on every span that
    ends at the latest call or later, with the calls that were answered
    [True], and never holds more than the ceiling. *)
Lemma serve_in_time_order c calls :
  forall rl answers rl' (known : list Z) (t0 : Z),
    RateLimiter.serve calls rl = (answers, rl') ->
    in_time_order calls ->
    (forall call, In call calls -> t0 <= fst call) ->
    (forall t, t0 <= t ->
       List.filter (fun r => t - r <? RateLimiter.window_size rl)
                   (RateLimiter.client_requests c rl)
       = List.filter (fun r => t - r <? RateLimiter.window_size rl) known) ->
    Z.of_nat (length (RateLimiter.client_requests c rl))
      <= Z.max 0 (RateLimiter.max_requests rl) ->
    RateLimiter.max_requests rl' = RateLimiter.max_requests rl
    /\ RateLimiter.window_size rl' = RateLimiter.window_size rl
    /\ Z.of_nat (length (RateLimiter.client_requests c rl'))
       <= Z.max 0 (RateLimiter.max_requests rl)
    /\ forall t, t0 <= t -> (forall call, In call calls -> fst call <= t) ->
         List.filter (fun r => t - r <? RateLimiter.window_size rl)
                     (RateLimiter.client_requests c rl')
         = List.filter (fun r => t - r <? RateLimiter.window_size rl)
                       (known ++ RateLimiter.allowed_times c calls answers).
Proof.
  induction calls as [|[now c0] calls IH]; simpl;
    intros rl answers rl' known t0 Hrun Hsorted Hfrom Hknown Hlen.
  - inversion Hrun; subst. rewrite app_nil_r. auto.
  - destruct (RateLimiter.is_allowed now c0 rl) as [answer rl1] eqn:E1.
    destruct (RateLimiter.serve calls rl1) as [answers' rl2] eqn:E2.
    inversion Hrun; subst answers rl2. clear Hrun.
    inversion Hsorted as [|? ? Hsorted' Hhead]; subst.
    pose proof (is_allowed_fields now c0 rl) as [Hmax Hwin].
    pose proof (is_allowed_client_requests now c0 rl c) as Hreq.
    pose proof (is_allowed_answer now c0 rl) as Hans.
    rewrite E1 in Hmax, Hwin, Hreq, Hans. simpl in Hmax, Hwin, Hreq, Hans.
    assert (Ht0 : t0 <= now) by (apply (Hfrom (now, c0)); left; reflexivity).
    destruct (IH rl1 answers' rl'
                (known ++ (if String.eqb c0 c && answer then [now] else []))
                now E2 Hsorted') as (R1 & R2 & R3 & R4).
    + intros call Hcall. rewrite List.Forall_forall in Hhead.
      apply (Hhead call Hcall).
    + intros t Ht. rewrite Hwin, Hreq.
      destruct (decide (c0 = c)) as [->|Hne].
      * rewrite String.eqb_refl. simpl. rewrite !List.filter_app. f_equal.
        unfold RateLimiter.in_window.
        rewrite RateLimiterFacts.filter_window_later by exact Ht.
        apply Hknown. lia.
      * apply String.eqb_neq in Hne. rewrite Hne. simpl. rewrite app_nil_r.
        apply Hknown. lia.
    + rewrite Hmax, Hreq. destruct (decide (c0 = c)) as [->|Hne]; [|exact Hlen].
      rewrite length_app. destruct answer; simpl.
      * symmetry in Hans. apply Z.ltb_lt in Hans. lia.
      * pose proof (filter_length_le
                      (fun r => now - r <? RateLimiter.window_size rl)
                      (RateLimiter.client_requests c rl)) as Hle.
        unfold RateLimiter.in_window. lia.
    + rewrite Hmax in R1, R3. rewrite Hwin in R2, R4.
      split; [exact R1|]. split; [exact R2|]. split; [exact R3|].
      intros t Ht Hall. rewrite app_assoc. apply R4.
      * apply (Hall (now, c0)). left. reflexivity.
      * intros call Hcall. apply Hall. right. exact Hcall.
Qed.

(** X5.  The guarantee of the sliding window: when a fresh limiter serves
    calls in the order of their times, the calls of one client that were
    answered [True] within any window that ends at the latest call or later
    are never more than the ceiling. *)
Theorem serve_admits_at_most_the_ceiling limit calls answers rl c t :
  in_time_order calls ->
  RateLimiter.serve calls (RateLimiter.init limit) = (answers, rl) ->
  (forall call, In call calls -> fst call <= t) ->
  Z.of_nat (length (List.filter (fun r => t - r <? 60)
                      (RateLimiter.allowed_times c calls answers)))
    <= Z.max 0 limit.
Proof.
  intros Hsorted Hrun Hlast.
  set (t0 := match calls with [] => t | call :: _ => fst call end).
  assert (Hfrom : forall call, In call calls -> t0 <= fst call).
  { unfold t0. destruct calls as [|call0 calls']; [intros call []|].
    intros call [<-|Hin]; [lia|].
    inversion Hsorted as [|? ? _ Hhead]; subst.
    rewrite List.Forall_forall in Hhead. apply (Hhead call Hin). }
  assert (Ht0 : t0 <= t).
  { unfold t0. destruct calls as [|call0 calls']; [lia|].
    apply Hlast. left. reflexivity. }
  destruct (serve_in_time_order c calls (RateLimiter.init limit) answers rl [] t0
              Hrun Hsorted Hfrom) as (_ & _ & Hlen & Hwin).
  - intros t' _. unfold RateLimiter.client_requests, RateLimiter.init. simpl.
    rewrite lookup_empty. reflexivity.
  - unfold RateLimiter.client_requests, RateLimiter.init. simpl.
    rewrite lookup_empty. simpl. lia.
  - specialize (Hwin t Ht0 Hlast). simpl in Hwin, Hlen.
    rewrite <- Hwin.
    pose proof (filter_length_le (fun r => t - r <? 60)
                  (RateLimiter.client_requests c rl)). lia.
Qed.

(* ===================================================================== *)
(** ** The client key and the middleware *)
(* ===================================================================== *)

(** X6.  Requests that carry different API keys never share a window, and
    a request that carries an API key never shares a window with a request
    identified by its address: a request that gets the client key of a
    request with an API key carries that API key. *)
Theorem get_client_id_separates_api_keys r1 r2 a key client_id :
  RateLimit.app_api_key r1 = Some (String a key) ->
  RateLimit.get_client_id r1 = Some client_id ->
  RateLimit.get_client_id r2 = Some client_id ->
  RateLimit.app_api_key r2 = Some (String a key).
Proof.
  unfold RateLimit.get_client_id. intros -> H1 H2.
  inversion H1; subst client_id. clear H1.
  destruct (RateLimit.app_api_key r2) as [[|b key2]|].
  - destruct (RateLimit.x_forwarded_for r2) as [[|f fs]|];
      [| discriminate |]; destruct (RateLimit.client_host r2); discriminate.
  - inversion H2. reflexivity.
  - destruct (RateLimit.x_forwarded_for r2) as [[|f fs]|];
      [| discriminate |]; destruct (RateLimit.client_host r2); discriminate.
Qed.

Section MiddlewareFacts.
Context {S E B : Type}.
Variable call_next : RateLimit.Request -> M S E (RateLimit.Response B).

(** X7.  A request for a path that is not exempt, from a client whose
    window is full, is answered 429 without reaching the rest of the
    application: the state of the application is untouched, and no window
    gains an entry. *)
Theorem rate_limit_middleware_refuses request client_id t_allowed t_remaining
    t_reset rl s :
  RateLimit.get_client_id request = Some client_id ->
  existsb (String.eqb (RateLimit.path request)) RateLimit.exempt_paths = false ->
  RateLimiter.max_requests rl
    <= Z.of_nat (length (RateLimiter.in_window t_allowed client_id rl)) ->
  exists response rl',
    RateLimit.rate_limit_middleware call_next request t_allowed t_remaining
      t_reset (rl, s) = (Return response, (rl', s))
    /\ RateLimit.status_code response = 429
    /\ (exists remaining,
          RateLimit.content response = RateLimit.RateLimitExceeded 60 remaining)
    /\ forall c t, In t (RateLimiter.client_requests c rl') ->
                   In t (RateLimiter.client_requests c rl).
Proof.
  intros Hid Hpath Hfull. unfold RateLimit.rate_limit_middleware.
  rewrite Hid, Hpath.
  pose proof (is_allowed_answer t_allowed client_id rl) as Hans.
  pose proof (fun c => is_allowed_client_requests t_allowed client_id rl c) as Hreq.
  destruct (RateLimiter.is_allowed t_allowed client_id rl) as [answer rl1].
  simpl in Hans, Hreq.
  assert (answer = false) as ->.
  { rewrite Hans. apply Z.ltb_ge. exact Hfull. }
  simpl. eexists _, _. split; [reflexivity|]. simpl.
  split; [reflexivity|]. split; [eauto|].
  intros c t. rewrite RateLimiterFacts.client_requests_insert.
  assert (Hsub : forall c', In t (RateLimiter.client_requests c' rl1) ->
                            In t (RateLimiter.client_requests c' rl)).
  { intros c'. rewrite Hreq. destruct (decide (client_id = c')) as [<-|]; [|auto].
    rewrite app_nil_r. unfold RateLimiter.in_window. intros Ht.
    apply filter_In in Ht. apply Ht. }
  destruct (decide (client_id = c)) as [<-|]; [|apply Hsub].
  unfold RateLimiter.in_window. intros Ht. apply filter_In in Ht as [Ht _].
  apply Hsub. exact Ht.
Qed.

(** X8.  A request for an exempt path is neither limited nor counted: the
    rest of the application answers it, and the limiter is left as it is. *)
Theorem rate_limit_middleware_exempt request client_id t_allowed t_remaining
    t_reset rl s :
  RateLimit.get_client_id request = Some client_id ->
  In (RateLimit.path request) RateLimit.exempt_paths ->
  RateLimit.rate_limit_middleware call_next request t_allowed t_remaining
    t_reset (rl, s)
  = match call_next request s with
    | (Return response, s') => (Return response, (rl, s'))
    | (Raise e, s') => (Raise (RateLimit.Raised e), (rl, s'))
    end.
Proof.
  intros Hid Hpath. unfold RateLimit.rate_limit_middleware. rewrite Hid.
  replace (existsb _ RateLimit.exempt_paths) with true; [reflexivity|].
  symmetry. apply existsb_exists. exists (RateLimit.path request).
  split; [exact Hpath | apply String.eqb_refl].
Qed.

(** X9.  A request for a path that is not exempt, from a client whose
    window has room, reaches the rest of the application and is counted
    whatever the application does with it: when the handler raises, the
    exception leaves the middleware and the time of the request is in the
    window of the client; when the handler answers, the answer keeps its
    status and body. *)
Theorem rate_limit_middleware_admits request client_id t_allowed t_remaining
    t_reset rl s :
  RateLimit.get_client_id request = Some client_id ->
  existsb (String.eqb (RateLimit.path request)) RateLimit.exempt_paths = false ->
  Z.of_nat (length (RateLimiter.in_window t_allowed client_id rl))
    < RateLimiter.max_requests rl ->
  match call_next request s with
  | (Raise e, s') =>
    exists rl',
      RateLimit.rate_limit_middleware call_next request t_allowed t_remaining
        t_reset (rl, s) = (Raise (RateLimit.Raised e), (rl', s'))
      /\ In t_allowed (RateLimiter.client_requests client_id rl')
  | (Return response, s') =>
    exists response' rl',
      RateLimit.rate_limit_middleware call_next request t_allowed t_remaining
        t_reset (rl, s) = (Return response', (rl', s'))
      /\ RateLimit.status_code response' = RateLimit.status_code response
      /\ RateLimit.content response' = RateLimit.content response
      /\ (t_remaining - t_allowed < RateLimiter.window_size rl ->
          In t_allowed (RateLimiter.client_requests client_id rl'))
  end.
Proof.
  intros Hid Hpath Hroom. unfold RateLimit.rate_limit_middleware.
  rewrite Hid, Hpath.
  pose proof (is_allowed_answer t_allowed client_id rl) as Hans.
  pose proof (is_allowed_client_requests t_allowed client_id rl client_id) as Hreq.
  pose proof (is_allowed_fields t_allowed client_id rl) as [_ Hwin].
  destruct (RateLimiter.is_allowed t_allowed client_id rl) as [answer rl1].
  simpl in Hans, Hreq, Hwin.
  assert (answer = true) as ->.
  { rewrite Hans. apply Z.ltb_lt. exact Hroom. }
  simpl. destruct (decide (client_id = client_id)) as [_|Hn]; [|congruence].
  destruct (call_next request s) as [[response|e] s'].
  - eexists _, _. split; [reflexivity|]. simpl.
    split; [reflexivity|]. split; [reflexivity|].
    intros Hsoon. rewrite RateLimiterFacts.client_requests_insert.
    destruct (decide (client_id = client_id)) as [_|Hn]; [|congruence].
    unfold RateLimiter.in_window. apply filter_In. split.
    + rewrite Hreq. apply in_or_app. right. left. reflexivity.
    + rewrite Hwin. apply Z.ltb_lt. exact Hsoon.
  - eexists. split; [reflexivity|].
    rewrite Hreq. apply in_or_app. right. left. reflexivity.
Qed.

End MiddlewareFacts.

(* ===================================================================== *)
(** ** Admission, lookup, cancellation and listing together *)
(* ===================================================================== *)

Lemma first_app {A} (p : A -> bool) l1 l2 :
  first p (l1 ++ l2) = match first p l1 with
                       | Some x => Some x
                       | None => first p l2
                       end.
Proof.
  unfold first. induction l1 as [|x l1 IH]; simpl; [reflexivity|].
  destruct (p x); [reflexivity | exact IH].
Qed.

Lemma existsb_false {A} (p : A -> bool) l :
  existsb p l = false -> forall x, In x l -> p x = false.
Proof.
  intros H x Hin. destruct (p x) eqn:E; [|reflexivity].
  assert (existsb p l = true) by (apply existsb_exists; eauto). congruence.
Qed.

(** What a real join that passes validation does to the store. *)
Lemma join_queue_real_cases jq key mode now tok uid d o d' :
  String.eqb mode "simulation" = false ->
  join_queue jq key mode now tok uid d = (o, d') ->
  (exists e, o = Raise e /\ d' = d)
  \/ (exists q,
        let u := QueueUser.mk uid (Queue.id q) (join_visitor_id jq) waiting tok
                   None None (Some (now + 10 * 60)) now true false in
        o = Return (to_response u)
        /\ queue_users d' = queue_users d ++ [u]
        /\ applications d' = applications d /\ queues d' = queues d
        /\ logs d' = logs d
        /\ (forall r, In r (queue_users d) ->
              QueueUser.id r <> uid /\ QueueUser.token r <> tok)).
Proof.
  intros Hmode Hrun.
  destruct (join_queue_cases _ _ _ _ _ _ _ _ Hrun)
    as [(detail & E & _) | [(detail & a & E & _) | (a & q & _ & _ & _ & E)]].
  - inversion E; subst. left. eauto.
  - inversion E; subst. left. eauto.
  - rewrite Hmode in E. cbv beta zeta in E. unfold bind, add_queue_user in E.
    destruct (existsb _ (queue_users d)) eqn:Edup.
    + inversion E; subst. left. eauto.
    + inversion E; subst. right. exists q. simpl.
      repeat split; auto.
      * pose proof (existsb_false _ _ Edup r H) as Hf. simpl in Hf.
        apply orb_false_iff in Hf as [Hf _]. apply Z.eqb_neq in Hf. exact Hf.
      * pose proof (existsb_false _ _ Edup r H) as Hf. simpl in Hf.
        apply orb_false_iff in Hf as [_ Hf]. apply String.eqb_neq in Hf. exact Hf.
Qed.

(** X10.  Round trip: the token that a real join returns resolves, in the
    store the join leaves, to the participant just admitted: the status
    lookup answers what the join answered, a participant that is waiting,
    with no wait time and an expiry ten minutes after the join. *)
Theorem join_queue_then_queue_status jq key mode now tok uid d r d' :
  String.eqb mode "simulation" = false ->
  join_queue jq key mode now tok uid d = (Return r, d') ->
  queue_status (resp_token r) d' = (Return r, d')
  /\ resp_token r = tok
  /\ resp_status r = waiting
  /\ resp_wait_time r = None
  /\ resp_expires_at r = Some (now + 600)
  /\ resp_visitor_id r = join_visitor_id jq.
Proof.
  intros Hmode Hrun.
  destruct (join_queue_real_cases _ _ _ _ _ _ _ _ _ Hmode Hrun)
    as [(e & E & _) | (q & E & Hrows & _ & _ & _ & Hfresh)]; [discriminate|].
  inversion E; subst r. clear E. simpl.
  split; [|repeat split].
  rewrite queue_status_eq. unfold by_token. rewrite Hrows, first_app.
  destruct (first _ (queue_users d)) as [r0|] eqn:E0.
  - apply first_Some in E0 as [Hin Hp]. apply andb_true_iff in Hp as [Ht _].
    apply String.eqb_eq in Ht. destruct (Hfresh r0 Hin) as [_ Hne]. contradiction.
  - simpl. rewrite String.eqb_refl. reflexivity.
Qed.

(** X11.  A join keeps the keys of the participants unique, and a join
    that fails, for whatever reason, writes nothing. *)
Theorem join_queue_keeps_keys_unique jq key mode now tok uid d o d' :
  unique_ids d -> unique_tokens d ->
  join_queue jq key mode now tok uid d = (o, d') ->
  unique_ids d' /\ unique_tokens d'
  /\ (forall e, o = Raise e -> d' = d).
Proof.
  intros Hids Htoks Hrun.
  destruct (String.eqb mode "simulation") eqn:Hmode.
  - destruct (join_queue_cases _ _ _ _ _ _ _ _ Hrun)
      as [(detail & E & _) | [(detail & a & E & _) | (a & q & _ & _ & _ & E)]];
      try rewrite Hmode in E; inversion E; subst;
      (split; [exact Hids|]); (split; [exact Htoks|]); intros e He;
      reflexivity || discriminate.
  - destruct (join_queue_real_cases _ _ _ _ _ _ _ _ _ Hmode Hrun)
      as [(e & E & ->) | (q & E & Hrows & _ & _ & _ & Hfresh)].
    + auto.
    + subst o. unfold unique_ids, unique_tokens. rewrite Hrows, !map_app. simpl.
      split; [|split].
      * apply List.NoDup_app; [exact Hids | repeat constructor; auto |].
        intros i Hi [<-|[]]. apply in_map_iff in Hi as (r & Hr & Hin).
        destruct (Hfresh r Hin) as [Hne _]. contradiction.
      * apply List.NoDup_app; [exact Htoks | repeat constructor; auto |].
        intros t Ht [<-|[]]. apply in_map_iff in Ht as (r & Hr & Hin).
        destruct (Hfresh r Hin) as [_ Hne]. contradiction.
      * intros e He. discriminate.
Qed.

Lemma token_determines_row rows a b :
  List.NoDup (List.map QueueUser.token rows) ->
  In a rows -> In b rows -> QueueUser.token a = QueueUser.token b -> a = b.
Proof.
  induction rows as [|x rows IH]; simpl; intros Hnd Ha Hb Hid; [contradiction|].
  inversion Hnd as [|? ? Hx Hnd']; subst.
  destruct Ha as [->|Ha], Hb as [->|Hb]; auto.
  - exfalso. apply Hx. rewrite Hid. apply in_map. exact Hb.
  - exfalso. apply Hx. rewrite <- Hid. apply in_map. exact Ha.
Qed.

(** X12.  With unique tokens, a cancellation that succeeds takes the
    participant out of every later lookup: a status lookup and a second
    cancellation with the same token both fail with a 404 and write
    nothing, and the scheduler's query no longer selects the participant. *)
Theorem cancel_queue_then_not_found token d d' :
  unique_tokens d ->
  cancel_queue token d = (Return tt, d') ->
  queue_status token d' = (Raise (HTTPException 404 "Token not found"), d')
  /\ cancel_queue token d' = (Raise (HTTPException 404 "Token not found"), d')
  /\ forall queue u, In u (waiting_users_of queue d') -> QueueUser.token u <> token.
Proof.
  intros Htoks Hrun. rewrite cancel_queue_eq in Hrun.
  destruct (by_token token d) as [u|] eqn:Eu; [|discriminate].
  inversion Hrun; subst d'. clear Hrun.
  unfold by_token in Eu. apply first_Some in Eu as [Hu Hp].
  apply andb_true_iff in Hp as [Htok _]. apply String.eqb_eq in Htok.
  set (d' := set_queue_users _ d).
  assert (Hgone : forall r, In r (queue_users d') ->
            QueueUser.token r = token -> QueueUser.is_deleted r = true).
  { intros r Hr Ht. unfold d' in Hr. simpl in Hr. unfold update_by_id in Hr.
    apply in_map_iff in Hr as (r0 & Hr0 & Hin).
    destruct (QueueUser.id r0 =? QueueUser.id u) eqn:E.
    - subst r. reflexivity.
    - subst r0. apply Z.eqb_neq in E. exfalso. apply E. f_equal.
      apply (token_determines_row (queue_users d)); auto. congruence. }
  assert (Hnone : by_token token d' = None).
  { unfold by_token. destruct (first _ (queue_users d')) as [r|] eqn:E;
      [|reflexivity].
    apply first_Some in E as [Hr Hp]. apply andb_true_iff in Hp as [Ht Hd].
    apply String.eqb_eq in Ht. rewrite (Hgone r Hr Ht) in Hd. discriminate. }
  split; [|split].
  - rewrite queue_status_eq, Hnone. reflexivity.
  - rewrite cancel_queue_eq, Hnone. reflexivity.
  - intros queue r Hr Ht. apply waiting_users_of_In in Hr as [Hin Hw].
    apply is_waiting_in_status in Hw as (_ & _ & Hd).
    rewrite (Hgone r Hin Ht) in Hd. discriminate.
Qed.


(** X14.  After a queue has been deleted, nobody is admitted to it: every
    join that names its id fails with a 401 or a 404 and writes nothing;
    the release scheduler no longer loads it; its participants are left as
    they are. *)
Theorem delete_queue_closes_admission id d d' :
  delete_queue id d = (Return tt, d') ->
  queue_users d' = queue_users d
  /\ (forall q, In q (active_queues d') -> Queue.id q <> id)
  /\ forall jq key mode now tok uid,
       join_queue_id jq = id ->
       exists code detail,
         join_queue jq key mode now tok uid d'
         = (Raise (HTTPException code detail), d')
         /\ (code = 401 \/ code = 404).
Proof.
  unfold delete_queue. rewrite bind_gets.
  destruct (first _ (queues d)) as [queue|] eqn:Eq; [|discriminate].
  apply first_Some in Eq as [_ Hp]. apply andb_true_iff in Hp as [Hid _].
  apply Z.eqb_eq in Hid.
  unfold modify. intros E. inversion E; subst d'. clear E.
  set (d' := set_queues _ d).
  assert (Hgone : forall q, In q (queues d') -> Queue.id q = id ->
                            Queue.is_deleted q = true).
  { intros q Hq Hqid. unfold d' in Hq. simpl in Hq.
    apply in_map_iff in Hq as (q0 & Hq0 & _).
    destruct (Queue.id q0 =? Queue.id queue) eqn:E.
    - subst q. reflexivity.
    - subst q0. apply Z.eqb_neq in E. congruence. }
  split; [reflexivity|]. split.
  - intros q Hq Hqid. unfold active_queues in Hq. apply filter_In in Hq as [Hq Hp].
    apply andb_true_iff in Hp as [_ Hd]. rewrite (Hgone q Hq Hqid) in Hd.
    discriminate.
  - intros jq key mode now tok uid Hjq.
    destruct (join_queue_cases jq key mode now tok uid d' _ eq_refl)
      as [(detail & E & _) | [(detail & a & E & _) | (a & q & _ & _ & Hq & _)]].
    + exists 401, detail. auto.
    + exists 404, detail. auto.
    + destruct Hq as (Hin & Hqid & _ & Hd). rewrite Hjq in Hqid.
      rewrite (Hgone q Hin Hqid) in Hd. discriminate.
Qed.

(** X15.  [delete_application] returns without committing: for an
    application that a credential resolves to, it answers normally and the
    store is the one it was, so the credential is still accepted. *)
Theorem delete_application_writes_nothing d key a :
  application_of d key = Some a ->
  delete_application (Application.id a) d = (Return tt, d)
  /\ forall id o d', delete_application id d = (o, d') -> d' = d.
Proof.
  intros Ha. split.
  - unfold delete_application. rewrite bind_gets.
    assert (Hin : In a (applications d) /\ Application.is_deleted a = false).
    { unfold application_of in Ha. destruct key as [[|c k]|]; try discriminate.
      apply first_Some in Ha as [Hin Hp]. apply andb_true_iff in Hp as [_ Hd].
      apply negb_true_iff in Hd. auto. }
    destruct Hin as [Hin Hd].
    destruct (first_is_Some
                (fun x => (Application.id x =? Application.id a)
                          && negb (Application.is_deleted x))
                (applications d) a Hin) as (b & ->); [|reflexivity].
    rewrite Z.eqb_refl, Hd. reflexivity.
  - intros id o d'. unfold delete_application. rewrite bind_gets.
    destruct (first _ (applications d)); intros E; inversion E; reflexivity.
Qed.

(** X16.  No participant is left behind while there is room: when the
    waiting participants of a queue are not more than its
    [max_users_per_minute], the processing of the queue releases every one
    of them. *)
Theorem process_queue_releases_all_under_quota endpoint store_fault queue w w' u :
  unique_ids (db w) ->
  count_waiting (Queue.id queue) (db w) <= Queue.max_users_per_minute queue ->
  process_queue endpoint store_fault queue w = (Return tt, w') ->
  In u (queue_users (db w)) -> is_waiting_in (Queue.id queue) u = true ->
  In u (released_between (db w) (db w'))
  /\ exists r, by_id (QueueUser.id u) (db w') = Some r
               /\ QueueUser.status r = ready.
Proof.
  intros Hnd Hroom Hrun Hin Hw.
  assert (Hsel : In u (waiting_users_of queue (db w))).
  { unfold waiting_users_of, count_waiting in *.
    rewrite firstn_all2.
    - apply order_by_created_at_In, filter_In. auto.
    - rewrite (Permutation_length (order_by_created_at_perm _)). lia. }
  assert (Hrel : In u (released_between (db w) (db w'))).
  { apply (released_between_selected endpoint store_fault queue); assumption. }
  split; [exact Hrel|].
  unfold released_between in Hrel. apply filter_In in Hrel as [_ Hp].
  apply andb_true_iff in Hp as [_ Hp].
  destruct (by_id (QueueUser.id u) (db w')) as [r|]; [|discriminate].
  exists r. split; [reflexivity|]. apply QueueUserStatus_eqb_eq. exact Hp.
Qed.

(* ===================================================================== *)
(** ** More on the callback dispatcher *)
(* ===================================================================== *)

Lemma backoff_prefix_0 url data : backoff_prefix url data 0 = [].
Proof. reflexivity. Qed.
Lemma backoff_prefix_1 url data :
  backoff_prefix url data 1 = [Post url data; Sleep 1].
Proof. reflexivity. Qed.
Lemma backoff_prefix_2 url data :
  backoff_prefix url data 2 = [Post url data; Sleep 1; Post url data; Sleep 2].
Proof. reflexivity. Qed.

(** The ways a dispatch can go. *)
Lemma send_callback_outcomes endpoint user queue w :
  exists w',
    send_callback endpoint user queue w = (Return tt, w')
    /\ queue_users (db w') = queue_users (db w)
    /\ match first (fun a => Application.id a =? Queue.application_id queue)
                   (applications (db w)) with
       | None => w' = w
       | Some app =>
         let url := Application.callback_url app in
         let data := callback_data_of user queue in
         exists k,
           (k <= 2)%nat
           /\ trace w' = trace w ++ backoff_prefix url data k ++ [Post url data]
           /\ clock w' = clock w + (2 ^ Z.of_nat k - 1)
           /\ ((CALLBACK_SUCCESS (metrics w') = CALLBACK_SUCCESS (metrics w) + 1
                /\ CALLBACK_FAILURE (metrics w') = CALLBACK_FAILURE (metrics w)
                /\ logs (db w') = logs (db w))
               \/ (CALLBACK_SUCCESS (metrics w') = CALLBACK_SUCCESS (metrics w)
                   /\ CALLBACK_FAILURE (metrics w') = CALLBACK_FAILURE (metrics w) + 1
                   /\ k = 2%nat
                   /\ logs (db w') =
                      logs (db w) ++
                        [Log.mk "callback_failure" "Callback failed after 3 attempts"
                           (Some (Application.id app)) (Some (Queue.id queue))
                           (Some (QueueUser.id user))]))
       end.
Proof.
  destruct (first (fun a => Application.id a =? Queue.application_id queue)
                  (applications (db w))) as [app|] eqn:Happ.
  2:{ exists w. unfold send_callback. rewrite bind_gets, Happ. auto. }
  set (url := Application.callback_url app).
  set (data := callback_data_of user queue).
  assert (Hsend : send_callback endpoint user queue w =
    (let* start_time := gets clock in
     let* success := callback_attempts endpoint url data 3 [0; 1; 2] in
     (if negb success then
        modify (fun w => set_metrics (inc_CALLBACK_FAILURE (metrics w)) w) ;;
        modify (fun w => set_db (set_logs
          (logs (db w) ++
             [Log.mk "callback_failure" "Callback failed after 3 attempts"
                (Some (Application.id app)) (Some (Queue.id queue))
                (Some (QueueUser.id user))]) (db w)) w)
      else ret tt) ;;
     modify (fun w =>
       set_metrics (observe_CALLBACK_DURATION (clock w - start_time) (metrics w)) w))
    w).
  { unfold send_callback. rewrite bind_gets, Happ. reflexivity. }
  rewrite Hsend. clear Hsend. rewrite bind_gets. unfold bind at 1.
  destruct (endpoint (trace w) url data) eqn:E0.
  { rewrite (callback_attempts_success endpoint) by exact E0.
    simpl negb. cbv iota. rewrite bind_ret. unfold modify.
    eexists. split; [reflexivity|]. simpl. split; [reflexivity|].
    exists 0%nat. rewrite backoff_prefix_0. simpl.
    split; [lia|]. split; [reflexivity|]. split; [lia|]. left. auto. }
  rewrite (callback_attempts_backoff endpoint) by (exact E0 || lia).
  destruct (endpoint (trace w ++ [Post url data; Sleep (2 ^ 0)]) url data) eqn:E1.
  { rewrite (callback_attempts_success endpoint) by exact E1.
    simpl negb. cbv iota. rewrite bind_ret. unfold modify.
    eexists. split; [reflexivity|]. simpl. split; [reflexivity|].
    exists 1%nat. rewrite backoff_prefix_1. simpl.
    split; [lia|]. split; [rewrite <- app_assoc; reflexivity|].
    split; [lia|]. left. auto. }
  rewrite (callback_attempts_backoff endpoint) by (exact E1 || lia).
  match goal with
  | |- context [callback_attempts endpoint url data 3 [2] ?w2] =>
    destruct (endpoint (trace w2) url data) eqn:E2
  end.
  { rewrite (callback_attempts_success endpoint) by exact E2.
    simpl negb. cbv iota. rewrite bind_ret. unfold modify.
    eexists. split; [reflexivity|]. simpl. split; [reflexivity|].
    exists 2%nat. rewrite backoff_prefix_2. simpl.
    split; [lia|]. split; [rewrite <- !app_assoc; reflexivity|].
    split; [lia|]. left. auto. }
  rewrite (callback_attempts_last endpoint) by (exact E2 || lia).
  simpl negb. cbv iota. rewrite bind_assoc, bind_modify, bind_modify.
  unfold modify. eexists. split; [reflexivity|]. simpl. split; [reflexivity|].
  exists 2%nat. rewrite backoff_prefix_2. simpl.
  split; [lia|]. split; [rewrite <- !app_assoc; reflexivity|].
  split; [lia|]. right. auto.
Qed.

(** X17.  Whatever the endpoint answers, a dispatch returns normally and
    leaves the participants alone.  When the application of the queue is
    missing it does nothing at all.  Otherwise it ends with a [POST] after
    at most two failed attempts with their backoff (at most 3 seconds of
    sleep), and it is counted exactly once, as a success or as a failure;
    a log row is written only with a failure. *)
Theorem send_callback_is_bounded_and_counted endpoint user queue w :
  exists w',
    send_callback endpoint user queue w = (Return tt, w')
    /\ queue_users (db w') = queue_users (db w)
    /\ match first (fun a => Application.id a =? Queue.application_id queue)
                   (applications (db w)) with
       | None => w' = w
       | Some app =>
         let url := Application.callback_url app in
         let data := callback_data_of user queue in
         exists k,
           (k <= 2)%nat
           /\ trace w' = trace w ++ backoff_prefix url data k ++ [Post url data]
           /\ clock w' = clock w + (2 ^ Z.of_nat k - 1)
           /\ ((CALLBACK_SUCCESS (metrics w') = CALLBACK_SUCCESS (metrics w) + 1
                /\ CALLBACK_FAILURE (metrics w') = CALLBACK_FAILURE (metrics w)
                /\ logs (db w') = logs (db w))
               \/ (CALLBACK_SUCCESS (metrics w') = CALLBACK_SUCCESS (metrics w)
                   /\ CALLBACK_FAILURE (metrics w') = CALLBACK_FAILURE (metrics w) + 1
                   /\ k = 2%nat
                   /\ logs (db w') =
                      logs (db w) ++
                        [Log.mk "callback_failure" "Callback failed after 3 attempts"
                           (Some (Application.id app)) (Some (Queue.id queue))
                           (Some (QueueUser.id user))]))
       end.
Proof. apply send_callback_outcomes. Qed.

Lemma backoff_prefix_events url data k e :
  In e (backoff_prefix url data k) -> e = Post url data \/ exists s, e = Sleep s.
Proof.
  unfold backoff_prefix. intros H. apply in_flat_map in H as (a & _ & [<-|[<-|[]]]);
    eauto.
Qed.

Lemma by_id_update_by_id d u f :
  unique_ids d -> In u (queue_users d) ->
  (forall r, QueueUser.id (f r) = QueueUser.id r) ->
  first (fun r => QueueUser.id r =? QueueUser.id u)
        (update_by_id (QueueUser.id u) f (queue_users d)) = Some (f u).
Proof.
  unfold unique_ids, first. intros Hnd Hu Hf. revert Hnd Hu.
  generalize (queue_users d) as rows.
  induction rows as [|x rows IH]; simpl; intros Hnd Hu; [contradiction|].
  inversion Hnd as [|? ? Hx Hnd']; subst.
  destruct Hu as [->|Hu].
  - rewrite Z.eqb_refl. rewrite Hf, Z.eqb_refl. reflexivity.
  - destruct (QueueUser.id x =? QueueUser.id u) eqn:E.
    + apply Z.eqb_eq in E. exfalso. apply Hx. rewrite E. apply in_map. exact Hu.
    + rewrite E. apply IH; assumption.
Qed.

(** X18.  The callback reports what was stored: with unique keys,
    [release_user] on a loaded participant writes that participant back as
    ready with the wait time from its creation to the clock at the release,
    leaves every other participant as it is, and every callback it posts
    carries the token of the participant, the status ready, that wait time
    and the id of the queue. *)
Theorem release_user_reports_what_it_stored endpoint user queue w :
  unique_ids (db w) -> In user (queue_users (db w)) ->
  exists w',
    release_user endpoint user queue w = (Return tt, w')
    /\ by_id (QueueUser.id user) (db w')
       = Some (released (clock w) (QueueUser.created_at user) user)
    /\ (forall r, In r (queue_users (db w)) ->
          QueueUser.id r <> QueueUser.id user -> In r (queue_users (db w')))
    /\ forall url data,
         In (Post url data) (trace w') ->
         In (Post url data) (trace w)
         \/ (cb_token data = QueueUser.token user
             /\ cb_status data = "ready"%string
             /\ cb_wait_time data = Some (clock w - QueueUser.created_at user)
             /\ cb_queue_id data = Queue.id queue).
Proof.
  intros Hnd Hin. unfold release_user. rewrite bind_gets, bind_modify.
  set (now := clock w).
  set (user' := released now (QueueUser.created_at user) user).
  set (w1 := set_db _ w).
  destruct (send_callback_outcomes endpoint user' queue w1) as (w' & E & Hrows & Hout).
  exists w'. split; [exact E|]. split; [|split].
  - unfold by_id. rewrite Hrows. unfold w1. simpl.
    apply by_id_update_by_id; [exact Hnd | exact Hin |].
    intros r. destruct r; reflexivity.
  - intros r Hr Hne. rewrite Hrows. unfold w1. simpl. unfold update_by_id.
    apply in_map_iff. exists r. split; [|exact Hr].
    apply Z.eqb_neq in Hne. rewrite Hne. reflexivity.
  - intros url data Hpost.
    destruct (first _ (applications (db w1))) as [app|].
    + destruct Hout as (k & _ & Htrace & _). rewrite Htrace in Hpost.
      unfold w1 in Hpost. simpl in Hpost.
      apply in_app_or in Hpost as [Hpost|Hpost]; [left; exact Hpost|].
      right.
      assert (Hdata : data = callback_data_of user' queue).
      { apply in_app_or in Hpost as [Hpost|[Hpost|[]]].
        - apply backoff_prefix_events in Hpost as [Hpost|(s & Hpost)];
            [inversion Hpost; reflexivity | discriminate].
        - inversion Hpost. reflexivity. }
      subst data. unfold user', released. destruct user; simpl. auto.
    + subst w'. left. exact Hpost.
Qed.

(* ===================================================================== *)
(** ** More on the release scheduler *)
(* ===================================================================== *)

Lemma NoDup_firstn {A} n (l : list A) : List.NoDup l -> List.NoDup (firstn n l).
Proof.
  intros H. rewrite <- (firstn_skipn n l) in H.
  apply NoDup_app_remove_r in H. exact H.
Qed.

(** X19.  The processing of one queue never writes a participant of
    another queue, however it ends. *)
Theorem process_queue_leaves_other_queues endpoint store_fault queue w o w' r :
  unique_ids (db w) ->
  process_queue endpoint store_fault queue w = (o, w') ->
  In r (queue_users (db w)) ->
  QueueUser.queue_id r <> Queue.id queue ->
  In r (queue_users (db w')).
Proof.
  intros Hnd Hrun Hin Hother.
  pose proof (process_queue_rows endpoint store_fault queue w o w' Hnd Hrun) as Hstep.
  apply (rows_step_keeps _ _ _ _ Hstep Hin).
  intros r' (Hid & _). apply in_map_iff in Hid as (u & Hid & Hu).
  apply waiting_users_of_In in Hu as [Hu Hw].
  apply is_waiting_in_status in Hw as (Hq & _).
  assert (u = r) as -> by (apply (id_determines_row (queue_users (db w))); auto).
  contradiction.
Qed.

(** X20.  The counter of released participants tells the truth: with
    unique keys, a processing of a queue that returns normally adds to
    [USERS_RELEASED] the number of participants it moved from waiting to
    ready, and leaves the counter of expired participants alone. *)
Theorem process_queue_counts_the_released endpoint store_fault queue w w' :
  unique_ids (db w) ->
  process_queue endpoint store_fault queue w = (Return tt, w') ->
  USERS_RELEASED (metrics w')
  = USERS_RELEASED (metrics w)
    + Z.of_nat (length (released_between (db w) (db w')))
  /\ USERS_EXPIRED (metrics w') = USERS_EXPIRED (metrics w).
Proof.
  intros Hnd Hrun.
  destruct (process_queue_total endpoint store_fault queue w)
    as (o & w1 & E & _ & _ & _ & _ & Hexp & _ & Ho).
  rewrite Hrun in E. inversion E; subst o w1. clear E.
  destruct Ho as (_ & _ & Hcount & _). split; [|exact Hexp].
  rewrite Hcount. do 2 f_equal. apply Permutation_length.
  apply NoDup_Permutation.
  - unfold waiting_users_of. apply NoDup_firstn.
    apply (Permutation_NoDup (Permutation_sym (order_by_created_at_perm _))).
    apply List.NoDup_filter. apply (NoDup_map_inv _ _ Hnd).
  - unfold released_between. apply List.NoDup_filter.
    apply (NoDup_map_inv _ _ Hnd).
  - intros u. symmetry.
    apply (released_between_selected endpoint store_fault queue); assumption.
Qed.

(** X21.  A cycle releases nobody it did not select: with unique keys,
    every participant that a cycle moves from waiting to ready, however the
    cycle ends, belongs to a queue that is active and not deleted, and was,
    in the store as the cycle found it, among the participants that the
    query of that queue selects.  Participants of a queue that is switched
    off or deleted are never released. *)
Theorem process_queues_releases_only_the_selected endpoint store_fault w o w' u :
  unique_ids (db w) -> unique_queue_ids (db w) ->
  process_queues endpoint store_fault w = (o, w') ->
  In u (released_between (db w) (db w')) ->
  exists queue,
    In queue (queues (db w))
    /\ Queue.is_active queue = true /\ Queue.is_deleted queue = false
    /\ QueueUser.queue_id u = Queue.id queue
    /\ In u (waiting_users_of queue (db w)).
Proof.
  intros Hnd Hqs Hrun Hrel.
  pose proof (process_queues_released_by endpoint store_fault w o w' Hnd Hqs Hrun)
    as Hstep.
  unfold released_between in Hrel. apply filter_In in Hrel as [Hin Hp].
  apply andb_true_iff in Hp as [Hw Hr]. apply QueueUserStatus_eqb_eq in Hw.
  destruct (by_id (QueueUser.id u) (db w')) as [r|] eqn:E; [|discriminate].
  apply QueueUserStatus_eqb_eq in Hr.
  destruct (rows_step_by_id _ _ _ _ _ Hnd Hstep Hin E)
    as [_ [->|(q & Hact & Hqid & Hids & _)]]; [congruence|].
  exists q. unfold active_queues in Hact. apply filter_In in Hact as [Hq Hp].
  apply andb_true_iff in Hp as [Ha Hd]. apply negb_true_iff in Hd.
  repeat split; auto.
  apply in_map_iff in Hids as (v & Hid & Hv).
  assert (v = u) as <-; [|exact Hv].
  apply (id_determines_row (queue_users (db w))); auto.
  apply waiting_users_of_In in Hv. apply Hv.
Qed.

(** X22.  A cycle of the scheduler fails only because of the store or of a
    negative quota: when the store runs its queries and no active queue has
    a negative [max_users_per_minute], the cycle returns normally; when the
    cycle raises, the store refused a query or an active queue has a
    negative quota. *)
Theorem process_queues_fails_only_on_store_or_quota endpoint store_fault w :
  ((forall q, store_fault q = false) ->
   (forall queue, In queue (active_queues (db w)) ->
                  0 <= Queue.max_users_per_minute queue) ->
   exists w', process_queues endpoint store_fault w = (Return tt, w'))
  /\ (forall e w', process_queues endpoint store_fault w = (Raise e, w') ->
        (exists q, store_fault q = true)
        \/ exists queue, In queue (active_queues (db w))
                         /\ Queue.max_users_per_minute queue < 0).
Proof.
  split.
  - intros Hhealthy Hquota. rewrite process_queues_eq, Hhealthy.
    destruct (for_each_invariant (process_queue endpoint store_fault)
                (fun _ _ => True) (active_queues (db w))) with (s := w)
      as (w' & E & _); [|exact I|eauto].
    intros visited queue wc Hin _.
    destruct (process_queue_total endpoint store_fault queue wc)
      as (o & w1 & E & _ & _ & _ & _ & _ & _ & Ho).
    destruct o as [[]|e]; [eauto|].
    destruct Ho as [_ [Hf|Hq]].
    + rewrite Hhealthy in Hf. discriminate.
    + specialize (Hquota queue Hin). lia.
  - intros e w'. rewrite process_queues_eq.
    destruct (store_fault LoadQueues) eqn:Ef; [left; eauto|].
    generalize (active_queues (db w)) as qs. intros qs. revert w.
    induction qs as [|queue qs IH]; intros w Hrun; [discriminate|].
    simpl in Hrun. unfold bind in Hrun.
    destruct (process_queue_total endpoint store_fault queue w)
      as (o & w1 & E & _ & _ & _ & _ & _ & _ & Ho).
    rewrite E in Hrun. destruct o as [[]|e1].
    + destruct (IH w1 Hrun) as [Hs|(q & Hq & Hneg)]; [left; exact Hs|].
      right. exists q. split; [right; exact Hq | exact Hneg].
    + destruct Ho as [_ [Hf|Hq]]; [left; eauto|].
      right. exists queue. split; [left; reflexivity | exact Hq].
Qed.

(* ===================================================================== *)
(** ** More on the expiration sweeper *)
(* ===================================================================== *)

Lemma swept_not_expired now r : is_expired_at now (swept now r) = false.
Proof.
  unfold swept. destruct (is_expired_at now r) eqn:E; [|exact E].
  unfold is_expired_at. destruct r; reflexivity.
Qed.

(** A sweep that returns normally, with unique keys. *)
Lemma cleanup_expired_tokens_sweeps store_fault w w' :
  unique_ids (db w) ->
  cleanup_expired_tokens store_fault w = (Return tt, w') ->
  queue_users (db w') = List.map (swept (clock w)) (queue_users (db w))
  /\ USERS_EXPIRED (metrics w')
     = USERS_EXPIRED (metrics w)
       + Z.of_nat (length (List.filter (is_expired_at (clock w))
                                       (queue_users (db w))))
  /\ USERS_RELEASED (metrics w') = USERS_RELEASED (metrics w)
  /\ trace w' = trace w /\ clock w' = clock w
  /\ logs (db w') = logs (db w) /\ store_fault LoadExpired = false.
Proof.
  intros Hnd. rewrite cleanup_expired_tokens_eq.
  destruct (store_fault LoadExpired); [discriminate|].
  set (now := clock w).
  set (users := List.filter (is_expired_at now) (queue_users (db w))).
  set (P := fun r0 r : QueueUser.t =>
              is_expired_at now r0 = true /\ r = QueueUser.set_status expired r0).
  intros Hrun.
  destruct (for_each_invariant (E := WorkerError)
    (fun user =>
       modify (fun w => set_db (set_queue_users
         (update_by_id (QueueUser.id user) (QueueUser.set_status expired)
            (queue_users (db w))) (db w)) w) ;;
       modify (fun w => set_metrics (inc_USERS_EXPIRED (metrics w)) w))
    (fun visited wc =>
       rows_step P (queue_users (db w)) (queue_users (db wc))
       /\ (forall r, In r (queue_users (db wc)) ->
             In (QueueUser.id r) (List.map QueueUser.id visited) ->
             QueueUser.status r = expired)
       /\ USERS_EXPIRED (metrics wc)
          = USERS_EXPIRED (metrics w) + Z.of_nat (length visited)
       /\ USERS_RELEASED (metrics wc) = USERS_RELEASED (metrics w)
       /\ trace wc = trace w /\ clock wc = clock w
       /\ logs (db wc) = logs (db w))
    users) with (s := w) as (w1 & E & H).
  - intros visited x wc Hx (I1 & I2 & I3 & I4 & I5 & I6 & I7).
    eexists. split; [reflexivity|]. simpl.
    apply filter_In in Hx as [Hin Hexp].
    split; [|split; [|split; [|auto]]].
    + apply update_by_id_rows_step; [exact Hnd | exact Hin | | | exact I1].
      * intros r. destruct r; reflexivity.
      * intros r [->|[_ ->]]; (split; [exact Hexp|]).
        -- reflexivity.
        -- apply set_status_twice.
    + intros r Hr Hid. unfold update_by_id in Hr.
      apply in_map_iff in Hr as (r1 & Hr1 & Hin1).
      destruct (QueueUser.id r1 =? QueueUser.id x) eqn:Eid.
      * subst r. reflexivity.
      * subst r1. apply Z.eqb_neq in Eid.
        rewrite map_app in Hid. apply in_app_or in Hid as [Hid|Hid].
        -- apply I2; assumption.
        -- simpl in Hid. destruct Hid as [Hid|[]]. congruence.
    + rewrite I3, length_app. simpl. lia.
  - split; [apply rows_step_refl|]. split; [simpl; intros r _ []|].
    simpl. repeat split; auto. lia.
  - rewrite Hrun in E. inversion E; subst w1. clear E Hrun.
    destruct H as (H1 & H2 & H3 & H4 & H5 & H6 & H7).
    split; [|auto 10].
    assert (Hpart : forall part0 part,
              Forall2 (row_step P) part0 part ->
              (forall r0, In r0 part0 -> In r0 (queue_users (db w))) ->
              (forall r, In r part -> In r (queue_users (db w'))) ->
              part = List.map (swept now) part0).
    { induction 1 as [|r0 r part0 part [Hid Hr] _ IH]; intros Hin0 Hin;
        [reflexivity|]. simpl. f_equal.
      - unfold swept. destruct (is_expired_at now r0) eqn:Ee.
        + assert (Hs : QueueUser.status r = expired).
          { apply H2; [apply Hin; left; reflexivity|].
            rewrite Hid. apply in_map. apply filter_In.
            split; [apply Hin0; left; reflexivity | exact Ee]. }
          destruct Hr as [->|[_ ->]]; [|reflexivity].
          unfold is_expired_at in Ee. rewrite Hs in Ee. discriminate.
        + destruct Hr as [->|[Hr _]]; [reflexivity | congruence].
      - apply IH; intros; [apply Hin0 | apply Hin]; right; assumption. }
    apply Hpart; auto.
Qed.

(** X23.  A sweep that returns normally has, with unique keys, marked as
    expired exactly the participants that were waiting, not deleted and
    past their expiry at the time of the sweep, and left every other row as
    it was; it has counted each of them once, sent no callback, written no
    log row and taken no time. *)
Theorem cleanup_expired_tokens_marks_the_overdue store_fault w w' :
  unique_ids (db w) ->
  cleanup_expired_tokens store_fault w = (Return tt, w') ->
  queue_users (db w') = List.map (swept (clock w)) (queue_users (db w))
  /\ USERS_EXPIRED (metrics w')
     = USERS_EXPIRED (metrics w)
       + Z.of_nat (length (List.filter (is_expired_at (clock w))
                                       (queue_users (db w))))
  /\ USERS_RELEASED (metrics w') = USERS_RELEASED (metrics w)
  /\ trace w' = trace w /\ clock w' = clock w
  /\ logs (db w') = logs (db w).
Proof.
  intros Hnd Hrun.
  destruct (cleanup_expired_tokens_sweeps store_fault w w' Hnd Hrun)
    as (H1 & H2 & H3 & H4 & H5 & H6 & _). auto 10.
Qed.

(** X24.  Sweeping twice is sweeping once: with unique keys, a second sweep
    at the same time finds nothing to mark and leaves everything, the
    counter included, as the first sweep left it. *)
Theorem cleanup_expired_tokens_twice store_fault w w' :
  unique_ids (db w) ->
  cleanup_expired_tokens store_fault w = (Return tt, w') ->
  cleanup_expired_tokens store_fault w' = (Return tt, w').
Proof.
  intros Hnd Hrun.
  destruct (cleanup_expired_tokens_sweeps store_fault w w' Hnd Hrun)
    as (Hrows & _ & _ & _ & Hclock & _ & Hfault).
  rewrite cleanup_expired_tokens_eq, Hfault, Hrows, Hclock.
  replace (List.filter (is_expired_at (clock w))
             (List.map (swept (clock w)) (queue_users (db w)))) with (@nil QueueUser.t);
    [reflexivity|].
  symmetry. clear Hrows. induction (queue_users (db w)) as [|x rows IH];
    [reflexivity|].
  simpl. rewrite swept_not_expired. exact IH.
Qed.

(** When the store loads the participants of a queue whose quota is not
    negative, the processing of the queue returns normally. *)
Lemma process_queue_returns endpoint store_fault queue w :
  store_fault (LoadWaiting (Queue.id queue)) = false ->
  0 <= Queue.max_users_per_minute queue ->
  process_queue endpoint store_fault queue w
  = (Return tt, snd (process_queue endpoint store_fault queue w)).
Proof.
  intros Hf Hq.
  destruct (process_queue_total endpoint store_fault queue w)
    as (o & w' & E & _ & _ & _ & _ & _ & _ & Ho).
  rewrite E. destruct o as [[]|e]; [reflexivity|].
  destruct Ho as [_ [H|H]]; [congruence | lia].
Qed.
(* ===================================================================== *)
(** ** The theorems at the sample data *)
(* ===================================================================== *)

Ltac prove_unique_ids :=
  unfold unique_ids, unique_queue_ids; simpl;
  repeat (apply List.NoDup_cons;
          [ let H := fresh in
            simpl; intros H;
            repeat (destruct H as [H|H]; [discriminate H|]); exact H
          | ]);
  apply List.NoDup_nil.

Lemma terminal_states_and_cancellation_witness :
  unique_ids (db (Sample.world [Sample.dee; Sample.ann] 10))
  /\ (forall o w',
        process_queues Sample.always_200 Sample.healthy
          (Sample.world [Sample.dee; Sample.ann] 10) = (o, w') ->
        In Sample.dee (queue_users (db w')))
  /\ cancel_queue "tok-gone" (db (Sample.world [Sample.dee; Sample.ann] 10))
     = (Raise (HTTPException 404 "Token not found"),
        db (Sample.world [Sample.dee; Sample.ann] 10)).
Proof.
  assert (H : unique_ids (db (Sample.world [Sample.dee; Sample.ann] 10)))
    by prove_unique_ids.
  split; [exact H|].
  destruct (terminal_states_and_cancellation Sample.always_200 Sample.healthy
              (Sample.world [Sample.dee; Sample.ann] 10) H) as (Hkeep & Hnone & _).
  split.
  - apply (Hkeep Sample.dee); [left; reflexivity | reflexivity].
  - apply Hnone. reflexivity.
Defined.

Lemma start_survives_processing_errors_witness :
  start_iteration Sample.always_200 Sample.checkout_down
    (Sample.world [Sample.ann; Sample.cyd] 10)
  = (Return tt,
     advance 60 (emit (Sleep 60) (Sample.world [Sample.ann; Sample.cyd] 10))).
Proof.
  destruct (start_survives_processing_errors Sample.always_200 Sample.checkout_down)
    as [_ H].
  apply (H (Sample.world [Sample.ann; Sample.cyd] 10)
           [] Sample.checkout [Sample.tickets; Sample.parked] OperationalError
           (Sample.world [Sample.ann; Sample.cyd] 10)
           (Sample.world [Sample.ann; Sample.cyd] 10));
    reflexivity.
Defined.


Lemma send_callback_bounded_retries_witness :
  exists w',
    send_callback Sample.always_500 (released 10 0 Sample.ann) Sample.checkout
      (Sample.world [released 10 0 Sample.ann] 10) = (Return tt, w')
    /\ slept (trace w') = [1; 2]
    /\ posts (trace w') = 3%nat
    /\ length (logs (db w')) = 1%nat
    /\ CALLBACK_FAILURE (metrics w') = 1.
Proof.
  destruct (send_callback_bounded_retries Sample.always_500
              (released 10 0 Sample.ann) Sample.checkout Sample.shop
              (Sample.world [released 10 0 Sample.ann] 10) eq_refl)
    as (Hfail & _ & _).
  destruct (Hfail (fun _ _ => eq_refl))
    as (w' & E & Htrace & Hslept & Hlogs & Hcount & _).
  exists w'. split; [exact E|].
  split; [exact Hslept|]. split; [rewrite Htrace; reflexivity|].
  split; [rewrite Hlogs; reflexivity | exact Hcount].
Defined.

Lemma process_queues_respects_quota_witness :
  Z.of_nat (length (released_in 10
      (db (Sample.world [Sample.ann; Sample.bob; Sample.cyd] 10))
      (db (snd (process_queues Sample.always_200 Sample.healthy
                  (Sample.world [Sample.ann; Sample.bob; Sample.cyd] 10))))))
  <= 1.
Proof.
  apply (process_queues_respects_quota Sample.always_200 Sample.healthy
           (Sample.world [Sample.ann; Sample.bob; Sample.cyd] 10)
           (fst (process_queues Sample.always_200 Sample.healthy
                   (Sample.world [Sample.ann; Sample.bob; Sample.cyd] 10)))
           _ Sample.checkout).
  - prove_unique_ids.
  - prove_unique_ids.
  - left. reflexivity.
  - simpl. lia.
  - apply surjective_pairing.
Defined.


Lemma process_queue_sets_queue_size_witness :
  QUEUE_SIZE (metrics (snd (process_queue Sample.always_200 Sample.healthy
                              Sample.checkout
                              (Sample.world [Sample.ann; Sample.bob] 10))))
    !! 10
  = Some 2.
Proof.
  apply (process_queue_sets_queue_size Sample.always_200 Sample.healthy
           Sample.checkout (Sample.world [Sample.ann; Sample.bob] 10)).
  - discriminate.
  - reflexivity.
Defined.

Lemma join_queue_simulation_is_transient_witness :
  exists detail,
    queue_status "tok-fake" (Sample.store [Sample.ann])
    = (Raise (HTTPException 404 detail), Sample.store [Sample.ann]).
Proof.
  destruct (join_queue_simulation_is_transient
              (mkJoin 10 "v9") (Some "key-shop"%string) 1000
              "tok-fake"%string 105 (Sample.store [Sample.ann]) _ _ eq_refl)
    as (_ & _ & _ & _ & _ & Hfresh & _).
  apply Hfresh. intros u [<-|[]]. discriminate.
Defined.

Lemma is_allowed_denied_records_nothing_witness :
  RateLimiter.client_requests "api_key:k"
    (snd (RateLimiter.is_allowed 1 "api_key:k"
            (snd (RateLimiter.is_allowed 0 "api_key:k" (RateLimiter.init 1)))))
  = [0].
Proof.
  destruct (is_allowed_denied_records_nothing 1 "api_key:k"
              (snd (RateLimiter.is_allowed 0 "api_key:k" (RateLimiter.init 1)))
              (snd (RateLimiter.is_allowed 1 "api_key:k"
                      (snd (RateLimiter.is_allowed 0 "api_key:k"
                              (RateLimiter.init 1)))))
              eq_refl) as (H & _).
  rewrite H. reflexivity.
Defined.

(* ===================================================================== *)
(** ** The further theorems at the sample data *)
(* ===================================================================== *)

Lemma is_allowed_clients_are_independent_witness :
  fst (RateLimiter.is_allowed 5 "ip:10.0.0.7" SampleRequests.used_up)
  = fst (RateLimiter.is_allowed 5 "ip:10.0.0.7" (RateLimiter.init 1)).
Proof.
  apply (is_allowed_clients_are_independent 0 "api_key:key-shop"
           (RateLimiter.init 1) 5 "ip:10.0.0.7").
  discriminate.
Defined.

Lemma is_allowed_consumes_one_witness :
  fst (RateLimiter.get_remaining_requests 7 "ip:10.0.0.7"
         (snd (RateLimiter.is_allowed 7 "ip:10.0.0.7" (RateLimiter.init 3))))
  = fst (RateLimiter.get_remaining_requests 7 "ip:10.0.0.7" (RateLimiter.init 3)) - 1.
Proof.
  apply (is_allowed_consumes_one 7 "ip:10.0.0.7" (RateLimiter.init 3)
           (snd (RateLimiter.is_allowed 7 "ip:10.0.0.7" (RateLimiter.init 3)))).
  - simpl. lia.
  - reflexivity.
Defined.

Lemma get_remaining_requests_records_nothing_witness :
  fst (RateLimiter.is_allowed 9 "api_key:key-shop"
         (snd (RateLimiter.get_remaining_requests 4 "api_key:key-shop"
                 SampleRequests.used_up)))
  = fst (RateLimiter.is_allowed 9 "api_key:key-shop" SampleRequests.used_up).
Proof.
  apply (get_remaining_requests_records_nothing 4 "api_key:key-shop"
           SampleRequests.used_up 9).
  lia.
Defined.

Lemma is_allowed_after_quiet_window_witness :
  fst (RateLimiter.is_allowed 60 "api_key:key-shop" SampleRequests.used_up) = true.
Proof.
  apply (is_allowed_after_quiet_window 60 "api_key:key-shop" SampleRequests.used_up).
  - reflexivity.
  - intros t Ht. vm_compute in Ht. destruct Ht as [<-|[]].
    vm_compute. discriminate.
Defined.

Lemma serve_admits_at_most_the_ceiling_witness :
  Z.of_nat (length (List.filter (fun r => 30 - r <? 60)
     (RateLimiter.allowed_times "a"
        [(0, "a"); (10, "a"); (10, "b"); (20, "a"); (30, "a")]%string
        (fst (RateLimiter.serve
                [(0, "a"); (10, "a"); (10, "b"); (20, "a"); (30, "a")]%string
                (RateLimiter.init 2))))))
  <= Z.max 0 2.
Proof.
  apply (serve_admits_at_most_the_ceiling 2
           [(0, "a"); (10, "a"); (10, "b"); (20, "a"); (30, "a")]%string
           _ (snd (RateLimiter.serve
                     [(0, "a"); (10, "a"); (10, "b"); (20, "a"); (30, "a")]%string
                     (RateLimiter.init 2))) "a" 30).
  - unfold in_time_order.
    repeat (constructor; [|repeat constructor; simpl; lia]). constructor.
  - apply surjective_pairing.
  - intros call Hin. simpl in Hin.
    repeat (destruct Hin as [<-|Hin]; [simpl; lia|]). destruct Hin.
Defined.

Lemma get_client_id_separates_api_keys_witness :
  RateLimit.app_api_key
    (RateLimit.mkRequest (Some "key-shop"%string) (Some "198.51.100.4"%string)
       None "/queue_status")
  = Some "key-shop"%string.
Proof.
  apply (get_client_id_separates_api_keys SampleRequests.join_request
           (RateLimit.mkRequest (Some "key-shop"%string)
              (Some "198.51.100.4"%string) None "/queue_status")
           (Ascii.ascii_of_nat 107) "ey-shop" "api_key:key-shop"); reflexivity.
Defined.

Lemma rate_limit_middleware_refuses_witness :
  exists response rl',
    RateLimit.rate_limit_middleware SampleRequests.join_handler
      SampleRequests.join_request 1 1 1 (SampleRequests.used_up, Sample.store [])
    = (Return response, (rl', Sample.store []))
    /\ RateLimit.status_code response = 429.
Proof.
  destruct (rate_limit_middleware_refuses SampleRequests.join_handler
              SampleRequests.join_request "api_key:key-shop" 1 1 1
              SampleRequests.used_up (Sample.store []))
    as (response & rl' & E & Hcode & _).
  - reflexivity.
  - reflexivity.
  - vm_compute. discriminate.
  - eauto.
Defined.

Lemma rate_limit_middleware_exempt_witness :
  RateLimit.get_client_id SampleRequests.health_request
  = Some "ip:203.0.113.9"%string
  /\ fst (RateLimit.rate_limit_middleware SampleRequests.join_handler
            SampleRequests.health_request 1 1 1
            (SampleRequests.used_up, Sample.store []))
     = Raise (RateLimit.Raised (HTTPException 401 "Missing app_api_key")).
Proof.
  split; [reflexivity|].
  rewrite (rate_limit_middleware_exempt SampleRequests.join_handler
             SampleRequests.health_request "ip:203.0.113.9" 1 1 1
             SampleRequests.used_up (Sample.store [])).
  - reflexivity.
  - reflexivity.
  - left. reflexivity.
Defined.

Lemma rate_limit_middleware_admits_witness :
  exists response rl' d',
    RateLimit.rate_limit_middleware SampleRequests.join_handler
      SampleRequests.join_request 1 1 1 (RateLimiter.init 1, Sample.store [])
    = (Return response, (rl', d'))
    /\ RateLimit.status_code response = 200.
Proof.
  pose proof (rate_limit_middleware_admits SampleRequests.join_handler
                SampleRequests.join_request "api_key:key-shop" 1 1 1
                (RateLimiter.init 1) (Sample.store [])) as H.
  destruct (SampleRequests.join_handler SampleRequests.join_request
              (Sample.store [])) as [[response|e] d'] eqn:Ej.
  - destruct H as (response' & rl' & E & Hcode & _).
    + reflexivity.
    + reflexivity.
    + vm_compute. reflexivity.
    + exists response', rl', d'. split; [exact E|].
      rewrite Hcode. vm_compute in Ej. inversion Ej. reflexivity.
  - vm_compute in Ej. discriminate.
Defined.

Lemma join_queue_then_queue_status_witness :
  exists r,
    queue_status "tok-new" (snd (join_queue (mkJoin 10 "v1")
                                   (Some "key-shop"%string) "real" 1000
                                   "tok-new" 104 (Sample.store [Sample.ann])))
    = (Return r,
       snd (join_queue (mkJoin 10 "v1") (Some "key-shop"%string) "real" 1000
              "tok-new" 104 (Sample.store [Sample.ann])))
    /\ resp_status r = waiting.
Proof.
  destruct (join_queue_then_queue_status (mkJoin 10 "v1")
              (Some "key-shop"%string) "real" 1000 "tok-new" 104
              (Sample.store [Sample.ann]) _ _ eq_refl eq_refl)
    as (Hlookup & _ & Hstatus & _).
  eexists. split; [exact Hlookup | exact Hstatus].
Defined.

Lemma join_queue_keeps_keys_unique_witness :
  unique_ids (snd (join_queue (mkJoin 10 "v1") (Some "key-shop"%string) "real"
                     1000 "tok-new" 104 (Sample.store [Sample.ann; Sample.cyd])))
  /\ unique_tokens
       (snd (join_queue (mkJoin 10 "v1") (Some "key-shop"%string) "real"
               1000 "tok-new" 104 (Sample.store [Sample.ann; Sample.cyd]))).
Proof.
  destruct (join_queue_keeps_keys_unique (mkJoin 10 "v1")
              (Some "key-shop"%string) "real" 1000 "tok-new" 104
              (Sample.store [Sample.ann; Sample.cyd])
              (fst (join_queue (mkJoin 10 "v1") (Some "key-shop"%string) "real"
                      1000 "tok-new" 104 (Sample.store [Sample.ann; Sample.cyd])))
              (snd (join_queue (mkJoin 10 "v1") (Some "key-shop"%string) "real"
                      1000 "tok-new" 104 (Sample.store [Sample.ann; Sample.cyd]))))
    as (H1 & H2 & _); [| | apply surjective_pairing |].
  - prove_unique_ids.
  - unfold unique_tokens. simpl.
    repeat (apply List.NoDup_cons;
            [ let H := fresh in
              simpl; intros H;
              repeat (destruct H as [H|H]; [discriminate H|]); exact H
            | ]).
    apply List.NoDup_nil.
  - split; assumption.
Defined.

Lemma cancel_queue_then_not_found_witness :
  queue_status "tok-ann"
    (snd (cancel_queue "tok-ann" (Sample.store [Sample.ann; Sample.bob])))
  = (Raise (HTTPException 404 "Token not found"),
     snd (cancel_queue "tok-ann" (Sample.store [Sample.ann; Sample.bob]))).
Proof.
  apply (cancel_queue_then_not_found "tok-ann"
           (Sample.store [Sample.ann; Sample.bob])).
  - unfold unique_tokens. simpl.
    repeat (apply List.NoDup_cons;
            [ let H := fresh in
              simpl; intros H;
              repeat (destruct H as [H|H]; [discriminate H|]); exact H
            | ]).
    apply List.NoDup_nil.
  - reflexivity.
Defined.


Lemma delete_queue_closes_admission_witness :
  exists code detail,
    fst (join_queue (mkJoin 10 "v1") (Some "key-shop"%string) "real" 1000
           "tok-new" 104 (snd (delete_queue 10 (Sample.store []))))
    = Raise (HTTPException code detail)
    /\ (code = 401 \/ code = 404).
Proof.
  destruct (delete_queue_closes_admission 10 (Sample.store [])
              (snd (delete_queue 10 (Sample.store []))) eq_refl)
    as (_ & _ & H).
  destruct (H (mkJoin 10 "v1") (Some "key-shop"%string) "real"%string 1000
              "tok-new"%string 104 eq_refl) as (code & detail & E & Hcode).
  exists code, detail. rewrite E. auto.
Defined.

Lemma delete_application_writes_nothing_witness :
  delete_application 1 (Sample.store [Sample.ann])
  = (Return tt, Sample.store [Sample.ann]).
Proof.
  apply (delete_application_writes_nothing (Sample.store [Sample.ann])
           (Some "key-shop"%string) Sample.shop).
  reflexivity.
Defined.

Lemma process_queue_releases_all_under_quota_witness :
  In Sample.fay
     (released_between
        (db (Sample.world [Sample.eve; Sample.fay; Sample.ann] 10))
        (db (snd (process_queue Sample.always_200 Sample.healthy Sample.tickets
                    (Sample.world [Sample.eve; Sample.fay; Sample.ann] 10))))).
Proof.
  apply (process_queue_releases_all_under_quota Sample.always_200 Sample.healthy
           Sample.tickets (Sample.world [Sample.eve; Sample.fay; Sample.ann] 10)).
  - prove_unique_ids.
  - vm_compute. discriminate.
  - apply process_queue_returns; [reflexivity | simpl; lia].
  - simpl. auto.
  - reflexivity.
Defined.

Lemma release_user_reports_what_it_stored_witness :
  exists w',
    release_user Sample.always_500 Sample.ann Sample.checkout
      (Sample.world [Sample.bob; Sample.ann] 40) = (Return tt, w')
    /\ by_id 100 (db w') = Some (released 40 0 Sample.ann).
Proof.
  destruct (release_user_reports_what_it_stored Sample.always_500 Sample.ann
              Sample.checkout (Sample.world [Sample.bob; Sample.ann] 40))
    as (w' & E & Hrow & _).
  - prove_unique_ids.
  - right. left. reflexivity.
  - exists w'. split; [exact E | exact Hrow].
Defined.

Lemma process_queue_leaves_other_queues_witness :
  In Sample.cyd
     (queue_users
        (db (snd (process_queue Sample.always_200 Sample.healthy Sample.checkout
                    (Sample.world [Sample.ann; Sample.cyd] 10))))).
Proof.
  apply (process_queue_leaves_other_queues Sample.always_200 Sample.healthy
           Sample.checkout (Sample.world [Sample.ann; Sample.cyd] 10)
           (fst (process_queue Sample.always_200 Sample.healthy Sample.checkout
                   (Sample.world [Sample.ann; Sample.cyd] 10)))).
  - prove_unique_ids.
  - apply surjective_pairing.
  - right. left. reflexivity.
  - discriminate.
Defined.

Lemma process_queue_counts_the_released_witness :
  USERS_RELEASED
    (metrics (snd (process_queue Sample.always_200 Sample.healthy Sample.tickets
                     (Sample.world [Sample.hal; Sample.eve; Sample.gus] 10))))
  = 0 + Z.of_nat (length (released_between
        (db (Sample.world [Sample.hal; Sample.eve; Sample.gus] 10))
        (db (snd (process_queue Sample.always_200 Sample.healthy Sample.tickets
                    (Sample.world [Sample.hal; Sample.eve; Sample.gus] 10)))))).
Proof.
  apply (process_queue_counts_the_released Sample.always_200 Sample.healthy
           Sample.tickets (Sample.world [Sample.hal; Sample.eve; Sample.gus] 10)).
  - prove_unique_ids.
  - apply process_queue_returns; [reflexivity | simpl; lia].
Defined.

Lemma process_queues_releases_only_the_selected_witness :
  exists queue,
    In queue (queues (db (Sample.turnstile_world (Sample.crowd 2) 100)))
    /\ Queue.is_active queue = true /\ Queue.is_deleted queue = false
    /\ 30 = Queue.id queue
    /\ In (Sample.visitor 1001 30 waiting "B" 1)
          (waiting_users_of queue
             (db (Sample.turnstile_world (Sample.crowd 2) 100))).
Proof.
  apply (process_queues_releases_only_the_selected Sample.always_200
           Sample.healthy (Sample.turnstile_world (Sample.crowd 2) 100)
           (fst (process_queues Sample.always_200 Sample.healthy
                   (Sample.turnstile_world (Sample.crowd 2) 100)))
           (snd (process_queues Sample.always_200 Sample.healthy
                   (Sample.turnstile_world (Sample.crowd 2) 100)))
           (Sample.visitor 1001 30 waiting "B" 1)).
  - prove_unique_ids.
  - prove_unique_ids.
  - apply surjective_pairing.
  - vm_compute. left. reflexivity.
Defined.

Lemma process_queues_fails_only_on_store_or_quota_witness :
  exists w',
    process_queues Sample.always_500 Sample.healthy
      (Sample.turnstile_world (Sample.crowd 2) 100) = (Return tt, w').
Proof.
  destruct (process_queues_fails_only_on_store_or_quota Sample.always_500
              Sample.healthy (Sample.turnstile_world (Sample.crowd 2) 100))
    as [H _].
  apply H.
  - reflexivity.
  - intros queue Hin. simpl in Hin. destruct Hin as [<-|[]]. simpl. lia.
Defined.

Lemma cleanup_expired_tokens_marks_the_overdue_witness :
  queue_users
    (db (snd (cleanup_expired_tokens Sample.healthy
                (Sample.world [Sample.dee; Sample.ann; Sample.cyd] 603))))
  = [Sample.dee; QueueUser.set_status expired Sample.ann; Sample.cyd].
Proof.
  destruct (cleanup_expired_tokens_marks_the_overdue Sample.healthy
              (Sample.world [Sample.dee; Sample.ann; Sample.cyd] 603)
              (snd (cleanup_expired_tokens Sample.healthy
                      (Sample.world [Sample.dee; Sample.ann; Sample.cyd] 603))))
    as (Hrows & _).
  - prove_unique_ids.
  - reflexivity.
  - rewrite Hrows. reflexivity.
Defined.

Lemma cleanup_expired_tokens_twice_witness :
  cleanup_expired_tokens Sample.healthy
    (snd (cleanup_expired_tokens Sample.healthy
            (Sample.world [Sample.dee; Sample.ann; Sample.cyd] 603)))
  = (Return tt,
     snd (cleanup_expired_tokens Sample.healthy
            (Sample.world [Sample.dee; Sample.ann; Sample.cyd] 603))).
Proof.
  apply (cleanup_expired_tokens_twice Sample.healthy
           (Sample.world [Sample.dee; Sample.ann; Sample.cyd] 603)).
  - prove_unique_ids.
  - reflexivity.
Defined.
